(** * Track resolver of textual ([src/textual/_resolve.py])

    A shallow embedding of [resolve], the routine that divides [total] cells
    of an axis among a list of [Scalar] dimensions (fixed cells, percentages
    and [fr] fractions) separated by a gutter, and the properties of the
    specification settled against it.

    Python values are modelled as follows:
    - [int] is [Z];
    - [fractions.Fraction] is [Q] (results are compared with [==], the
      integers obtained with [__floor__] are compared with [=]);
    - [float] is IEEE 754 binary64, through the Standard Library's
      [spec_float] with [prec = 53] and [emax = 1024];
    - a raised exception is the [Raise] branch of [result]. *)

From Stdlib Require Import ZArith QArith Qround Qabs List Bool Lia Lqa.
From Stdlib Require Import Floats.SpecFloat.
Import ListNotations.

Local Open Scope Z_scope.

(** ** Exceptions and the result monad *)

Inductive exn : Type :=
| TypeError        (* arithmetic on [None] *)
| AttributeError   (* [None.__floor__] *)
| ValueError       (* [Fraction.from_float(nan)] *)
| OverflowError    (* [Fraction.from_float(inf)] *)
| ScalarResolveError.

Inductive result (A : Type) : Type :=
| Ok (a : A)
| Raise (e : exn).

Arguments Ok {A} a.
Arguments Raise {A} e.

Definition bind {A B : Type} (r : result A) (k : A -> result B) : result B :=
  match r with
  | Ok a => k a
  | Raise e => Raise e
  end.

Notation "x <- r ;; k" := (bind r (fun x => k))
  (at level 61, r at next level, right associativity).

(** A comprehension whose element expression may raise: elements are
    evaluated left to right and the first exception aborts the list. *)
Fixpoint comprehension {A B : Type} (f : A -> result B) (l : list A)
  : result (list B) :=
  match l with
  | [] => Ok []
  | a :: l' => b <- f a ;; bs <- comprehension f l' ;; Ok (b :: bs)
  end.

(** ** Python floats *)

Module PyFloat.

Definition float : Type := spec_float.

Definition prec : Z := 53.
Definition emax : Z := 1024.

(** [x + y] on floats: binary64 addition, round to nearest, ties to even. *)
Definition add (x y : float) : float := SFadd prec emax x y.

(** The float nearest to [m * 2^e]; used to write float literals. *)
Definition of_Z2 (m e : Z) : float := binary_normalize prec emax m e false.

Definition of_Z (m : Z) : float := of_Z2 m 0.

(** The exact value of a finite non-zero float, [(-1)^s * m * 2^e]. *)
Definition ratio (s : bool) (m : positive) (e : Z) : Q :=
  match e with
  | Z0 => cond_Zopp s (Zpos m) # 1
  | Zpos p => (cond_Zopp s (Zpos m) * 2 ^ Zpos p) # 1
  | Zneg p => cond_Zopp s (Zpos m) # (2 ^ p)
  end.

(** [Fraction.from_float]: exact conversion; infinities and NaN raise. *)
Definition from_float (f : float) : result Q :=
  match f with
  | S754_zero _ => Ok 0%Q
  | S754_finite s m e => Ok (ratio s m e)
  | S754_infinity _ => Raise OverflowError
  | S754_nan => Raise ValueError
  end.

(** [sum(xs)] on floats: the start value is the integer 0 and the items
    are added from left to right, each addition rounded to a float (the
    loop of CPython up to 3.11). *)
Definition sum (xs : list float) : float :=
  fold_left add xs (S754_zero false).

(** [x - y] on floats. *)
Definition sub (x y : float) : float := SFsub prec emax x y.

(** [sum(xs)] from CPython 3.12 on: the same loop with Neumaier's
    compensation [c], added to the float sum at the end when it is finite
    and not zero.  The result is still a float. *)
Definition compensate (state : float * float) (x : float) : float * float :=
  let (f_result, c) := state in
  let t := add f_result x in
  (t,
   if SFleb (SFabs x) (SFabs f_result)
   then add c (add (sub f_result t) x)
   else add c (add (sub x t) f_result)).

Definition sum_compensated (xs : list float) : float :=
  let (f_result, c) :=
    fold_left compensate xs (S754_zero false, S754_zero false) in
  match c with
  | S754_finite _ _ _ => add f_result c
  | _ => f_result
  end.

End PyFloat.

Import PyFloat.

(** ** Geometry and scalars *)

Record Size : Type := { width : Z ; height : Z }.

(** Modelled from the spec: the [Scalar] class ([textual.css.scalar]) is
    imported by [_resolve.py] but its file is not part of the sources.  The
    specification describes it as a tagged value with the variants
    [Cells(n)], [Percent(p)] (a percentage of a reference dimension, which
    is the container's or the viewport's width or height) and
    [Flex(weight)].  [resolve] reads [scalar.value] as a float (it is passed
    to [Fraction.from_float]), so each variant carries a float. *)
Inductive Reference : Type :=
| ContainerWidth | ContainerHeight | ViewportWidth | ViewportHeight.

Inductive Scalar : Type :=
| Cells (n : float)
| Percent (p : float) (ref : Reference)
| Flex (weight : float).

(** Modelled from the spec: [scalar.value], the number a scalar carries. *)
Definition value (scalar : Scalar) : float :=
  match scalar with
  | Cells n => n
  | Percent p _ => p
  | Flex weight => weight
  end.

(** Modelled from the spec: [scalar.is_fraction], true of flex scalars. *)
Definition is_fraction (scalar : Scalar) : bool :=
  match scalar with
  | Flex _ => true
  | _ => false
  end.

Definition reference_dimension (ref : Reference) (size viewport : Size) : Z :=
  match ref with
  | ContainerWidth => width size
  | ContainerHeight => height size
  | ViewportWidth => width viewport
  | ViewportHeight => height viewport
  end.

(** Modelled from the spec: [scalar.resolve_dimension(size, viewport)], the
    operation the specification calls [resolve_concrete]: an exact rational
    number of cells, defined for [Cells] and [Percent] only. *)
Definition resolve_dimension (scalar : Scalar) (size viewport : Size)
  : result Q :=
  match scalar with
  | Cells n => from_float n
  | Percent p ref =>
      q <- from_float p ;;
      Ok (q * inject_Z (reference_dimension ref size viewport) / 100)%Q
  | Flex _ => Raise ScalarResolveError
  end.

(** ** Python built-ins used by [resolve] *)

(** [sum(xs)] on fractions: exact, from the integer 0. *)
Definition sum_fractions (xs : list Q) : Q := fold_left Qplus xs 0%Q.

(** [max(a, b)]: [b] when [b > a], else [a]. *)
Definition max_fraction (a b : Q) : Q := if Qle_bool b a then a else b.

(** Truth value of a [Fraction]: its numerator is not zero. *)
Definition truthy (q : Q) : bool := negb (Qnum q =? 0).

(** [itertools.accumulate] followed by [__floor__] of each item.  The first
    item is yielded as it is, and [None] has no [__floor__]; every later item
    is added to the running total, and adding [None] is a [TypeError]. *)
Fixpoint accumulate_from (running : Q) (values : list (option Q))
  : result (list Z) :=
  match values with
  | [] => Ok []
  | None :: _ => Raise TypeError
  | Some v :: values' =>
      let running' := (running + v)%Q in
      rest <- accumulate_from running' values' ;;
      Ok (Qfloor running' :: rest)
  end.

Definition accumulate_floor (values : list (option Q)) : result (list Z) :=
  match values with
  | [] => Ok []
  | None :: _ => Raise AttributeError
  | Some v :: values' =>
      rest <- accumulate_from v values' ;;
      Ok (Qfloor v :: rest)
  end.

(** The slice [xs[::2]]; [xs[1::2]] is [every_other (tl xs)]. *)
Fixpoint every_other {A : Type} (xs : list A) : list A :=
  match xs with
  | [] => []
  | [x] => [x]
  | x :: _ :: xs' => x :: every_other xs'
  end.

(** ** [resolve] *)

(** First comprehension: each scalar with [None] when it is a fraction and
    its resolved dimension otherwise. *)
Definition resolve_scalars (dimensions : list Scalar) (size viewport : Size)
  : result (list (Scalar * option Q)) :=
  comprehension
    (fun scalar =>
       if is_fraction scalar then Ok (scalar, None)
       else fraction <- resolve_dimension scalar size viewport ;;
            Ok (scalar, Some fraction))
    dimensions.

Definition unresolved (entry : Scalar * option Q) : bool :=
  match snd entry with None => true | Some _ => false end.

(** [sum(scalar.value for scalar, fraction in resolved if fraction is None)],
    converted with [from_float]. *)
Definition total_fraction_of (resolved : list (Scalar * option Q))
  : result Q :=
  from_float (PyFloat.sum (map (fun entry => value (fst entry))
                               (filter unresolved resolved))).

(** [sum(fraction for _, fraction in resolved if fraction is not None)]. *)
Definition consumed_of (resolved : list (Scalar * option Q)) : Q :=
  sum_fractions
    (flat_map (fun entry => match snd entry with
                            | Some fraction => [fraction]
                            | None => []
                            end) resolved).

Definition resolved_fractions_of (resolved : list (Scalar * option Q))
           (n : nat) (total gutter : Z) (total_fraction : Q)
  : result (list (option Q)) :=
  if truthy total_fraction then
    let total_gutter := gutter * (Z.of_nat n - 1) in
    let consumed := consumed_of resolved in
    let remaining :=
      max_fraction 0%Q (inject_Z (total - total_gutter) - consumed)%Q in
    let fraction_unit := (remaining / total_fraction)%Q in
    comprehension
      (fun entry =>
         match snd entry with
         | None => w <- from_float (value (fst entry)) ;;
                   Ok (Some (w * fraction_unit)%Q)
         | Some fraction => Ok (Some fraction)
         end)
      resolved
  else
    Ok (map snd resolved).

(** The offsets list and the zip of the two slices. *)
Definition results_of (resolved_fractions : list (option Q)) (gutter : Z)
  : result (list (Z * Z)) :=
  let fraction_gutter := inject_Z gutter in
  floors <- accumulate_floor
              (flat_map (fun fraction => [fraction; Some fraction_gutter])
                        resolved_fractions) ;;
  let offsets := 0 :: floors in
  Ok (combine (every_other offsets)
              (map (fun pair => snd pair - fst pair)
                   (combine (every_other offsets)
                            (every_other (tl offsets))))).

(** The rational size of every track, before rounding: the body of [resolve]
    up to [resolved_fractions]. *)
Definition resolve_fractions (dimensions : list Scalar) (total gutter : Z)
           (size viewport : Size) : result (list (option Q)) :=
  resolved <- resolve_scalars dimensions size viewport ;;
  total_fraction <- total_fraction_of resolved ;;
  resolved_fractions_of resolved (length dimensions) total gutter
                        total_fraction.

Definition resolve (dimensions : list Scalar) (total gutter : Z)
           (size viewport : Size) : result (list (Z * Z)) :=
  resolved_fractions <-
    resolve_fractions dimensions total gutter size viewport ;;
  results_of resolved_fractions gutter.

(** ** Properties stated by the specification *)

(** Tiling: the first offset is 0 and each offset is the previous one plus
    the previous length plus the gutter. *)
Definition tiling (gutter : Z) (results : list (Z * Z)) : Prop :=
  (forall o l, nth_error results 0 = Some (o, l) -> o = 0) /\
  (forall i o l o' l',
      nth_error results i = Some (o, l) ->
      nth_error results (S i) = Some (o', l') ->
      o' = o + l + gutter).

(** A float that is not negative: [0.0], [-0.0] or a positive number. *)
Definition non_negative_float (f : float) : bool :=
  match f with
  | S754_zero _ => true
  | S754_finite s _ _ => negb s
  | S754_infinity s => negb s
  | S754_nan => false
  end.

(** [rounds f entry]: the length of [entry] is the size [f] rounded between
    two floors of the running sum. *)
Definition rounds (f : Q) (entry : Z * Z) : Prop :=
  exists running : Q, snd entry = Qfloor (running + f) - Qfloor running.

(** [kept c entry]: the length of [entry] is the size [c] rounded by the
    floors: within one cell of [c], and [c] itself when [c] is a whole
    number of cells. *)
Definition kept (c : Q) (entry : Z * Z) : Prop :=
  (c - 1 < inject_Z (snd entry))%Q /\ (inject_Z (snd entry) < c + 1)%Q /\
  ((inject_Z (Qfloor c) == c)%Q -> (inject_Z (snd entry) == c)%Q).

(** A dimension that asks for nothing negative: a flex weight that is not
    negative, or a concrete size that is not negative. *)
Definition non_negative_request (size viewport : Size) (scalar : Scalar)
  : bool :=
  if is_fraction scalar then non_negative_float (value scalar)
  else match resolve_dimension scalar size viewport with
       | Ok f => Qle_bool 0 f
       | Raise _ => true
       end.

(** A float that converts to a fraction: not an infinity, not NaN. *)
Definition finite (f : float) : Prop := exists q, from_float f = Ok q.

(** A dimension that [resolve] can process: a fraction, or a scalar
    whose [resolve_dimension] returns. *)
Definition resolvable (size viewport : Size) (scalar : Scalar) : Prop :=
  is_fraction scalar = false ->
  exists f, resolve_dimension scalar size viewport = Ok f.

Definition no_fraction (dims : list Scalar) : Prop :=
  Forall (fun scalar => is_fraction scalar = false) dims.

(** ** Exact arithmetic, in the specification's words

    The distribution phase as the specification describes it:
    [total_weight] is the sum of the flex weights in exact rational
    arithmetic, each weight being converted before it is added.  Everything
    else is [resolve]. *)
Definition total_weight_of (resolved : list (Scalar * option Q)) : result Q :=
  ws <- comprehension (fun entry => from_float (value (fst entry)))
                      (filter unresolved resolved) ;;
  Ok (sum_fractions ws).

Definition resolve_exact (dimensions : list Scalar) (total gutter : Z)
           (size viewport : Size) : result (list (Z * Z)) :=
  resolved <- resolve_scalars dimensions size viewport ;;
  total_weight <- total_weight_of resolved ;;
  resolved_fractions <-
    resolved_fractions_of resolved (length dimensions) total gutter
                          total_weight ;;
  results_of resolved_fractions gutter.

(** ** Closed forms used in the proofs *)

(** The generator that interleaves the sizes with the gutter. *)
Definition interleave (gutter : Z) (rf : list (option Q))
  : list (option Q) :=
  flat_map (fun fraction => [fraction; Some (inject_Z gutter)]) rf.

(** The zip of the two slices of the offsets list. *)
Definition zipped (offsets : list Z) : list (Z * Z) :=
  combine (every_other offsets)
          (map (fun pair => snd pair - fst pair)
               (combine (every_other offsets) (every_other (tl offsets)))).

(** [layout gutter running fs] is what the offsets list and the two slices
    compute once every size is known: a track starts at the floor of the
    running sum and ends at the floor of the running sum plus its size. *)
Fixpoint layout (gutter : Z) (running : Q) (fs : list Q) : list (Z * Z) :=
  match fs with
  | [] => []
  | f :: fs' =>
      (Qfloor running, Qfloor (running + f) - Qfloor running)
        :: layout gutter (running + f + inject_Z gutter)%Q fs'
  end.

(** The floors that [accumulate] yields from a running total [running]. *)
Fixpoint floors (gutter : Z) (running : Q) (fs : list Q) : list Z :=
  match fs with
  | [] => []
  | f :: fs' =>
      Qfloor (running + f)
        :: Qfloor (running + f + inject_Z gutter)
        :: floors gutter (running + f + inject_Z gutter)%Q fs'
  end.

Definition get {A : Type} (default : A) (r : result A) : A :=
  match r with
  | Ok a => a
  | Raise _ => default
  end.

(** The floats summed into [total_fraction]. *)
Definition weights (dims : list Scalar) : list float :=
  map value (filter is_fraction dims).

(** The size of a concrete scalar and the weight of a flex scalar, as
    fractions (0 where the conversion raises). *)
Definition concrete_size (size viewport : Size) (scalar : Scalar) : Q :=
  get 0%Q (resolve_dimension scalar size viewport).

Definition weight (scalar : Scalar) : Q :=
  get 0%Q (from_float (value scalar)).

(** The sum of the flex weights in exact arithmetic. *)
Definition total_weight (dims : list Scalar) : Q :=
  sum_fractions (map weight (filter is_fraction dims)).

(** The entry of [resolved] for a scalar that resolves. *)
Definition entry_of (size viewport : Size) (scalar : Scalar)
  : Scalar * option Q :=
  (scalar,
   if is_fraction scalar then None
   else Some (concrete_size size viewport scalar)).

Definition consumed (dimensions : list Scalar) (size viewport : Size) : Q :=
  sum_fractions
    (map (concrete_size size viewport)
         (filter (fun scalar => negb (is_fraction scalar)) dimensions)).

Definition remaining (dimensions : list Scalar) (total gutter : Z)
           (size viewport : Size) : Q :=
  max_fraction
    0%Q
    (inject_Z (total - gutter * (Z.of_nat (length dimensions) - 1))
     - consumed dimensions size viewport)%Q.

(** The exact size [resolve] gives a track when [total_fraction] is the
    converted sum of the weights. *)
Definition exact_size (dimensions : list Scalar) (total gutter : Z)
           (size viewport : Size) (total_fraction : Q) (scalar : Scalar)
  : Q :=
  if is_fraction scalar
  then (weight scalar
        * (remaining dimensions total gutter size viewport
           / total_fraction))%Q
  else concrete_size size viewport scalar.

(** Rounding keeps the sign it is given. *)
Definition has_sign (s : bool) (f : float) : Prop :=
  match f with
  | S754_zero s' | S754_infinity s' | S754_finite s' _ _ => s' = s
  | S754_nan => True
  end.

(** [maybe_non_negative f]: [f] is NaN or is not negative. *)
Definition maybe_non_negative (f : float) : Prop :=
  f = S754_nan \/ non_negative_float f = true.

(** The exceptions of [Fraction.from_float]. *)
Definition conversion_error (e : exn) : Prop :=
  e = OverflowError \/ e = ValueError.

(** Whether the first dimension is a fraction. *)
Definition first_is_fraction (dims : list Scalar) : bool :=
  match dims with
  | scalar :: _ => is_fraction scalar
  | [] => false
  end.

(** The inputs on which [total_fraction] is zero: every concrete scalar
    resolves and the float sum of the flex weights converts to zero. *)
Definition zero_total_fraction (size viewport : Size) (dims : list Scalar)
  : Prop :=
  Forall (resolvable size viewport) dims
  /\ exists tf, from_float (PyFloat.sum (weights dims)) = Ok tf
                /\ truthy tf = false.

(** [shift_offsets d k results]: the offset of the entry at position [i]
    moved by [(k + i) * d], the lengths unchanged. *)
Fixpoint shift_offsets (d k : Z) (results : list (Z * Z)) : list (Z * Z) :=
  match results with
  | [] => []
  | (o, l) :: results' => (o + k * d, l) :: shift_offsets d (k + 1) results'
  end.

(** ** Inputs of the scenarios *)

Definition size_40_20 : Size := {| width := 40 ; height := 20 |}.

Definition f0 : float := of_Z 0.
Definition f1 : float := of_Z 1.
Definition f3 : float := of_Z 3.
Definition f25 : float := of_Z 25.
Definition f2 : float := of_Z 2.
(** [2.5], [9.5] and [25.5]. *)
Definition f2_5 : float := of_Z2 5 (-1).
Definition f9_5 : float := of_Z2 19 (-1).
Definition f25_5 : float := of_Z2 51 (-1).
(** The floats written [0.1] and [0.2]. *)
Definition f0_1 : float := of_Z2 7205759403792794 (-56).
Definition f0_2 : float := of_Z2 7205759403792794 (-55).

(** Every scalar of a literal list is a fraction or resolves. *)
Ltac all_resolvable :=
  repeat (first
            [ apply Forall_nil
            | apply Forall_cons;
              [ let H := fresh in
                intros H; first [ discriminate H | eexists; reflexivity ]
              | ] ]).

(** * Proofs *)

(** ** Floors *)

Section Floors.

Local Open Scope Q_scope.

Lemma Qfloor_unique (x : Q) (n : Z) :
  inject_Z n <= x -> x < inject_Z (n + 1) -> Qfloor x = n.
Proof.
  intros Hle Hlt.
  pose proof (Qfloor_le x) as Hfl.
  pose proof (Qlt_floor x) as Hfu.
  assert (H1 : (n < Qfloor x + 1)%Z).
  { rewrite Zlt_Qlt. eapply Qle_lt_trans; eassumption. }
  assert (H2 : (Qfloor x < n + 1)%Z).
  { rewrite Zlt_Qlt. eapply Qle_lt_trans; eassumption. }
  lia.
Qed.

Lemma Qfloor_plus_Z (x : Q) (z : Z) :
  Qfloor (x + inject_Z z) = (Qfloor x + z)%Z.
Proof.
  apply Qfloor_unique.
  - rewrite inject_Z_plus. apply Qplus_le_l. apply Qfloor_le.
  - replace (Qfloor x + z + 1)%Z with ((Qfloor x + 1) + z)%Z by lia.
    rewrite inject_Z_plus. apply Qplus_lt_l. apply Qlt_floor.
Qed.

Lemma Qfloor_plus_nonneg (x f : Q) :
  0 <= f -> (Qfloor x <= Qfloor (x + f))%Z.
Proof.
  intros Hf. apply Qfloor_resp_le.
  rewrite <- (Qplus_0_r x) at 1. apply Qplus_le_r. exact Hf.
Qed.

(** A track's length differs from its exact size by less than one cell. *)
Lemma Qfloor_diff_bounds (x f : Q) :
  f - 1 < inject_Z (Qfloor (x + f) - Qfloor x) /\
  inject_Z (Qfloor (x + f) - Qfloor x) < f + 1.
Proof.
  pose proof (Qfloor_le x) as H1.
  pose proof (Qlt_floor x) as H2.
  pose proof (Qfloor_le (x + f)) as H3.
  pose proof (Qlt_floor (x + f)) as H4.
  unfold Z.sub. rewrite inject_Z_plus, inject_Z_opp.
  rewrite inject_Z_plus in H2, H4.
  change (inject_Z 1) with 1 in H2, H4.
  split; lra.
Qed.

(** A size that is a whole number of cells is kept as it is. *)
Lemma Qfloor_diff_integer (x f : Q) :
  inject_Z (Qfloor f) == f ->
  inject_Z (Qfloor (x + f) - Qfloor x) == f.
Proof.
  intros Hf.
  assert (E : Qfloor (x + f) = (Qfloor x + Qfloor f)%Z).
  { rewrite <- Qfloor_plus_Z. apply Qfloor_comp.
    rewrite Hf. reflexivity. }
  rewrite E.
  replace (Qfloor x + Qfloor f - Qfloor x)%Z with (Qfloor f) by lia.
  exact Hf.
Qed.

End Floors.

(** ** The rounding phase computes [layout] *)

Section Rounding.

Variable gutter : Z.

Lemma accumulate_from_resolved (fs : list Q) :
  forall running,
    accumulate_from running (interleave gutter (map Some fs))
    = Ok (floors gutter running fs).
Proof.
  induction fs as [|f fs IH]; intros running; cbn; [reflexivity|].
  fold (interleave gutter (map Some fs)). rewrite IH. reflexivity.
Qed.

Lemma accumulate_from_unresolved (rf : list (option Q)) :
  forall running floors,
    accumulate_from running (interleave gutter rf) = Ok floors ->
    exists fs, rf = map Some fs.
Proof.
  induction rf as [|[f|] rf IH]; intros running fl H.
  - exists []. reflexivity.
  - cbn in H. fold (interleave gutter rf) in H.
    destruct (accumulate_from _ (interleave gutter rf)) as [rest|e] eqn:E;
      [|discriminate].
    destruct (IH _ _ E) as [fs ->]. exists (f :: fs). reflexivity.
  - cbn in H. discriminate.
Qed.

Lemma zipped_floors (fs : list Q) :
  forall running,
    zipped (Qfloor running :: floors gutter running fs)
    = layout gutter running fs.
Proof.
  induction fs as [|f fs IH]; intros running; [reflexivity|].
  cbn [floors layout]. rewrite <- IH. reflexivity.
Qed.

Lemma layout_comp (fs : list Q) :
  forall r r', (r == r')%Q -> layout gutter r fs = layout gutter r' fs.
Proof.
  induction fs as [|f fs IH]; intros r r' E; [reflexivity|].
  cbn [layout].
  assert (E1 : (r + f == r' + f)%Q) by (rewrite E; reflexivity).
  assert (E2 : (r + f + inject_Z gutter == r' + f + inject_Z gutter)%Q)
    by (rewrite E; reflexivity).
  rewrite (Qfloor_comp _ _ E), (Qfloor_comp _ _ E1), (IH _ _ E2).
  reflexivity.
Qed.

(** When every size is known the result is the layout from 0. *)
Lemma results_of_resolved (fs : list Q) :
  results_of (map Some fs) gutter = Ok (layout gutter 0 fs).
Proof.
  destruct fs as [|f fs]; [reflexivity|].
  unfold results_of. cbn [map flat_map app accumulate_floor].
  fold (interleave gutter (map Some fs)).
  cbn [accumulate_from]. rewrite accumulate_from_resolved. cbn [bind].
  f_equal.
  change (zipped (0 :: Qfloor f
                    :: Qfloor (f + inject_Z gutter)
                    :: floors gutter (f + inject_Z gutter)%Q fs)
          = layout gutter 0 (f :: fs)).
  cbn [layout].
  assert (E : (0 + f == f)%Q) by ring.
  assert (E' : (f + inject_Z gutter == 0 + f + inject_Z gutter)%Q) by ring.
  rewrite (Qfloor_comp _ _ E), <- (layout_comp fs _ _ E').
  rewrite <- zipped_floors. reflexivity.
Qed.

(** A size left unresolved makes the rounding phase raise. *)
Lemma results_of_unresolved (rf : list (option Q)) (results : list (Z * Z)) :
  results_of rf gutter = Ok results -> exists fs, rf = map Some fs.
Proof.
  unfold results_of. destruct rf as [|[f|] rf].
  - intros _. exists []. reflexivity.
  - cbn [flat_map app accumulate_floor accumulate_from].
    fold (interleave gutter rf).
    destruct (accumulate_from _ (interleave gutter rf)) as [rest|e] eqn:E;
      [|discriminate].
    intros _. destruct (accumulate_from_unresolved _ _ _ E) as [fs ->].
    exists (f :: fs). reflexivity.
  - cbn. discriminate.
Qed.

Lemma results_of_inv (rf : list (option Q)) (results : list (Z * Z)) :
  results_of rf gutter = Ok results ->
  exists fs, rf = map Some fs /\ results = layout gutter 0 fs.
Proof.
  intros H. destruct (results_of_unresolved _ _ H) as [fs ->].
  rewrite results_of_resolved in H. injection H as <-.
  exists fs. split; reflexivity.
Qed.

End Rounding.

(** ** Properties of [layout] *)

Section Layout.

Variable gutter : Z.

Lemma layout_length (fs : list Q) :
  forall running, length (layout gutter running fs) = length fs.
Proof.
  induction fs as [|f fs IH]; intros running; cbn; [|rewrite IH];
    reflexivity.
Qed.

Lemma layout_rounds (fs : list Q) :
  forall running, Forall2 rounds fs (layout gutter running fs).
Proof.
  induction fs as [|f fs IH]; intros running; cbn [layout]; constructor.
  - exists running. reflexivity.
  - apply IH.
Qed.

Lemma layout_first (fs : list Q) (running : Q) (o l : Z) :
  nth_error (layout gutter running fs) 0 = Some (o, l) ->
  o = Qfloor running.
Proof.
  destruct fs as [|f fs]; cbn; [discriminate|].
  intros H. injection H as <- _. reflexivity.
Qed.

Lemma layout_consecutive (fs : list Q) :
  forall running i o l o' l',
    nth_error (layout gutter running fs) i = Some (o, l) ->
    nth_error (layout gutter running fs) (S i) = Some (o', l') ->
    o' = o + l + gutter.
Proof.
  induction fs as [|f fs IH]; intros running i o l o' l' H H'.
  - destruct i; discriminate.
  - destruct i as [|i].
    + cbn [layout nth_error] in H, H'.
      assert (Ho : o = Qfloor running) by congruence.
      assert (Hl : l = Qfloor (running + f) - Qfloor running)
        by congruence.
      apply layout_first in H'. rewrite H', Ho, Hl, Qfloor_plus_Z. lia.
    + cbn [layout nth_error] in H, H'. eapply IH; eassumption.
Qed.

Lemma layout_tiling (fs : list Q) : tiling gutter (layout gutter 0 fs).
Proof.
  split.
  - intros o l H. apply layout_first in H. exact H.
  - apply layout_consecutive.
Qed.

(** The lengths telescope: with one gutter after every track they add up
    to the floor of the whole running sum. *)
Lemma layout_telescope (fs : list Q) :
  forall running,
    Qfloor running
    + fold_right Z.add 0 (map snd (layout gutter running fs))
    + gutter * Z.of_nat (length fs)
    = Qfloor (running + fold_right Qplus 0%Q fs
              + inject_Z (gutter * Z.of_nat (length fs))).
Proof.
  induction fs as [|f fs IH]; intros running.
  - cbn [layout map fold_right length]. change (Z.of_nat 0) with 0.
    rewrite Z.mul_0_r, !Z.add_0_r.
    apply Qfloor_comp. change (inject_Z 0) with 0%Q. ring.
  - cbn [layout map snd fold_right length].
    specialize (IH (running + f + inject_Z gutter)%Q).
    rewrite Qfloor_plus_Z in IH.
    rewrite Nat2Z.inj_succ.
    transitivity
      (Qfloor (running + f + inject_Z gutter + fold_right Qplus 0%Q fs
               + inject_Z (gutter * Z.of_nat (length fs)))); [lia|].
    apply Qfloor_comp.
    replace (gutter * Z.succ (Z.of_nat (length fs)))
      with (gutter + gutter * Z.of_nat (length fs)) by lia.
    rewrite inject_Z_plus. ring.
Qed.

End Layout.

(** What [rounds] gives for one track. *)
Lemma rounds_non_negative (f : Q) (entry : Z * Z) :
  rounds f entry -> (0 <= f)%Q -> 0 <= snd entry.
Proof.
  intros [running ->] Hf.
  pose proof (Qfloor_plus_nonneg running f Hf). lia.
Qed.

Lemma rounds_zero (f : Q) (entry : Z * Z) :
  rounds f entry -> (f == 0)%Q -> snd entry = 0.
Proof.
  intros [running ->] Hf.
  assert (E : (running + f == running)%Q) by (rewrite Hf; ring).
  rewrite (Qfloor_comp _ _ E). lia.
Qed.

Lemma rounds_within_one (f : Q) (entry : Z * Z) :
  rounds f entry ->
  (f - 1 < inject_Z (snd entry))%Q /\ (inject_Z (snd entry) < f + 1)%Q.
Proof.
  intros [running ->]. apply Qfloor_diff_bounds.
Qed.

Lemma rounds_integer (f : Q) (entry : Z * Z) :
  rounds f entry ->
  (inject_Z (Qfloor f) == f)%Q -> (inject_Z (snd entry) == f)%Q.
Proof.
  intros [running ->]. apply Qfloor_diff_integer.
Qed.

(** ** Floats: signs and finiteness of sums *)

Section FloatFacts.

Lemma ratio_positive (m : positive) (e : Z) : (0 < ratio false m e)%Q.
Proof.
  unfold ratio, Qlt. destruct e as [|p|p]; cbn [cond_Zopp Qnum Qden].
  - lia.
  - assert (0 < 2 ^ Z.pos p) by (apply Z.pow_pos_nonneg; lia). nia.
  - lia.
Qed.

Lemma ratio_negative (m : positive) (e : Z) : (ratio true m e < 0)%Q.
Proof.
  unfold ratio, Qlt. destruct e as [|p|p]; cbn [cond_Zopp Qnum Qden].
  - lia.
  - assert (0 < 2 ^ Z.pos p) by (apply Z.pow_pos_nonneg; lia). nia.
  - lia.
Qed.

Lemma truthy_ratio (s : bool) (m : positive) (e : Z) :
  truthy (ratio s m e) = true.
Proof.
  unfold truthy. apply negb_true_iff, Z.eqb_neq.
  destruct s.
  - pose proof (ratio_negative m e) as H. unfold Qlt in H. cbn in H. lia.
  - pose proof (ratio_positive m e) as H. unfold Qlt in H. cbn in H. lia.
Qed.

Lemma truthy_spec (q : Q) : truthy q = true <-> ~ (q == 0)%Q.
Proof.
  unfold truthy, Qeq. cbn. rewrite negb_true_iff, Z.eqb_neq. lia.
Qed.

Lemma from_float_non_negative (f : float) (q : Q) :
  non_negative_float f = true -> from_float f = Ok q -> (0 <= q)%Q.
Proof.
  destruct f as [s|s| |s m e]; cbn; intros Hs H; try discriminate.
  - injection H as <-. apply Qle_refl.
  - injection H as <-. apply negb_true_iff in Hs. subst s.
    apply Qlt_le_weak, ratio_positive.
Qed.

Lemma binary_round_aux_sign (sx : bool) (mx ex : Z) (lx : location) :
  has_sign sx (binary_round_aux prec emax sx mx ex lx).
Proof.
  unfold binary_round_aux.
  destruct (shr_fexp prec emax mx ex lx) as [mrs' e'].
  destruct (shr_fexp prec emax _ e' loc_Exact) as [mrs'' e''].
  destruct (shr_m mrs''); [reflexivity| |exact I].
  destruct (e'' <=? emax - prec); reflexivity.
Qed.

Lemma binary_round_sign (sx : bool) (mx : positive) (ex : Z) :
  has_sign sx (binary_round prec emax sx mx ex).
Proof.
  unfold binary_round.
  destruct (shl_align mx ex _) as [mz ez].
  apply binary_round_aux_sign.
Qed.

Lemma has_sign_false (f : float) :
  has_sign false f -> maybe_non_negative f.
Proof.
  destruct f as [s|s| |s m e]; cbn; intros H; subst;
    solve [left; reflexivity | right; reflexivity].
Qed.

Lemma add_non_negative (x y : float) :
  maybe_non_negative x -> non_negative_float y = true ->
  maybe_non_negative (add x y).
Proof.
  intros [->|Hx] Hy; [left; reflexivity|].
  destruct x as [sx|sx| |sx mx ex], y as [sy|sy| |sy my ey];
    cbn [non_negative_float] in Hx, Hy; try discriminate;
    try (apply negb_true_iff in Hx; subst sx);
    try (apply negb_true_iff in Hy; subst sy);
    try solve [right; reflexivity];
    try solve [destruct sx; right; reflexivity];
    try solve [destruct sy; right; reflexivity];
    try solve [destruct sx, sy; right; reflexivity].
  apply has_sign_false.
  unfold add, SFadd. cbn [cond_Zopp Z.add binary_normalize].
  apply binary_round_sign.
Qed.

Lemma fold_add_non_negative (xs : list float) :
  forall start,
    maybe_non_negative start ->
    Forall (fun x => non_negative_float x = true) xs ->
    maybe_non_negative (fold_left add xs start).
Proof.
  induction xs as [|x xs IH]; intros start Hs Hxs; [exact Hs|].
  inversion Hxs; subst. cbn [fold_left].
  apply IH; [apply add_non_negative|]; assumption.
Qed.

(** The float sum of weights that are not negative is not negative. *)
Lemma sum_non_negative (xs : list float) (q : Q) :
  Forall (fun x => non_negative_float x = true) xs ->
  from_float (PyFloat.sum xs) = Ok q -> (0 <= q)%Q.
Proof.
  intros Hxs H.
  destruct (fold_add_non_negative xs (S754_zero false)
              (or_intror eq_refl) Hxs) as [E|E].
  - unfold PyFloat.sum in H. rewrite E in H. discriminate.
  - eapply from_float_non_negative; eassumption.
Qed.

Lemma add_finite (x y : float) :
  finite (add x y) -> finite x /\ finite y.
Proof.
  unfold finite. intros [q H].
  destruct x as [sx|sx| |sx mx ex], y as [sy|sy| |sy my ey];
    try (split; eexists; reflexivity);
    try (cbn in H; discriminate);
    destruct sx, sy; cbn in H; discriminate.
Qed.

Lemma fold_add_finite (xs : list float) :
  forall start,
    finite (fold_left add xs start) -> finite start /\ Forall finite xs.
Proof.
  induction xs as [|x xs IH]; intros start H; cbn [fold_left] in H.
  - split; [exact H|constructor].
  - destruct (IH _ H) as [Hs Hxs].
    destruct (add_finite _ _ Hs) as [Hstart Hx].
    split; [exact Hstart|constructor; assumption].
Qed.

(** When the float sum converts to a fraction, so does every item. *)
Lemma sum_finite (xs : list float) (q : Q) :
  from_float (PyFloat.sum xs) = Ok q -> Forall finite xs.
Proof.
  intros H. apply (fold_add_finite xs (S754_zero false)).
  exists q. exact H.
Qed.

End FloatFacts.

(** ** The exact size of every track, as a function of the dimensions *)

Section ExactSizes.

Variables (dimensions : list Scalar) (total gutter : Z).
Variables (size viewport : Size).

Lemma resolve_scalars_inv (dims : list Scalar) resolved :
  resolve_scalars dims size viewport = Ok resolved ->
  Forall (resolvable size viewport) dims /\ resolved = map (entry_of size viewport) dims.
Proof.
  unfold resolve_scalars. revert resolved.
  induction dims as [|scalar dims IH]; intros resolved H; cbn in H.
  - injection H as <-. split; constructor.
  - cbn [map]. unfold entry_of at 1, concrete_size.
    destruct (is_fraction scalar) eqn:Efr; cbn [bind] in H.
    + destruct (comprehension _ dims) as [rest|e]; [|discriminate].
      cbn [bind] in H. injection H as <-.
      destruct (IH _ eq_refl) as [Hall ->].
      split; [constructor; [intros ?; congruence|exact Hall]|].
      reflexivity.
    + destruct (resolve_dimension scalar size viewport) as [f|e] eqn:Ef;
        [|discriminate].
      cbn [bind] in H.
      destruct (comprehension _ dims) as [rest|e]; [|discriminate].
      cbn [bind] in H. injection H as <-.
      destruct (IH _ eq_refl) as [Hall ->].
      split.
      * constructor; [|exact Hall]. intros _. rewrite Ef. eauto.
      * reflexivity.
Qed.

Lemma resolve_scalars_ok (dims : list Scalar) :
  Forall (resolvable size viewport) dims ->
  resolve_scalars dims size viewport = Ok (map (entry_of size viewport) dims).
Proof.
  unfold resolve_scalars.
  induction 1 as [|scalar dims Hs Hdims IH]; [reflexivity|].
  cbn [comprehension map]. unfold entry_of at 1, concrete_size.
  destruct (is_fraction scalar) eqn:Efr; cbn [bind].
  - rewrite IH. reflexivity.
  - destruct (Hs Efr) as [f Ef]. rewrite Ef. cbn [bind get].
    rewrite IH. reflexivity.
Qed.

Lemma total_fraction_of_entries (dims : list Scalar) :
  total_fraction_of (map (entry_of size viewport) dims)
  = from_float (PyFloat.sum (weights dims)).
Proof.
  unfold total_fraction_of, weights. do 2 f_equal.
  induction dims as [|scalar dims IH]; [reflexivity|].
  cbn [map filter]. unfold unresolved at 1, entry_of at 1. cbn [snd].
  destruct (is_fraction scalar); cbn [map fst]; rewrite IH; reflexivity.
Qed.

Lemma consumed_of_entries :
  consumed_of (map (entry_of size viewport) dimensions)
  = consumed dimensions size viewport.
Proof.
  unfold consumed_of, consumed. f_equal.
  induction dimensions as [|scalar dims IH]; [reflexivity|].
  cbn [map filter flat_map]. unfold entry_of at 1. cbn [snd].
  destruct (is_fraction scalar); cbn [negb app map]; rewrite IH;
    reflexivity.
Qed.

End ExactSizes.

(** ** [resolve] returns the layout of the exact sizes, or raises *)

Section Characterisation.

Variables (dimensions : list Scalar) (total gutter : Z).
Variables (size viewport : Size).

Lemma map_Some_inj {A : Type} (xs ys : list A) :
  map Some xs = map Some ys -> xs = ys.
Proof.
  revert ys. induction xs as [|x xs IH]; intros [|y ys] H;
    try discriminate; [reflexivity|].
  cbn in H. injection H as -> H. f_equal. apply IH, H.
Qed.

Lemma no_fraction_weights (dims : list Scalar) :
  no_fraction dims -> weights dims = [].
Proof.
  unfold weights. induction 1 as [|scalar dims Hs _ IH]; [reflexivity|].
  cbn [filter]. rewrite Hs. exact IH.
Qed.

(** The branch taken when [total_fraction] is not zero. *)
Lemma fractions_comprehension (tf : Q) (dims : list Scalar) :
  Forall finite (weights dims) ->
  comprehension
    (fun entry : Scalar * option Q =>
       match snd entry with
       | None =>
           w <- from_float (value (fst entry)) ;;
           Ok (Some (w * (remaining dimensions total gutter size viewport
                          / tf))%Q)
       | Some fraction => Ok (Some fraction)
       end)
    (map (entry_of size viewport) dims)
  = Ok (map (fun scalar => Some (exact_size dimensions total gutter size viewport tf scalar)) dims).
Proof.
  unfold weights.
  induction dims as [|scalar dims IH]; intros Hfin; [reflexivity|].
  cbn [map comprehension filter] in *.
  change (entry_of size viewport scalar)
    with (scalar, if is_fraction scalar then None
                  else Some (concrete_size size viewport scalar)).
  cbn [fst snd].
  unfold exact_size at 1, weight.
  destruct (is_fraction scalar) eqn:Efr.
  - cbn [map] in Hfin. inversion Hfin as [|? ? [w Hw] Hrest]; subst.
    rewrite Hw. cbn [bind get]. rewrite (IH Hrest). reflexivity.
  - cbn [bind]. rewrite (IH Hfin). reflexivity.
Qed.

(** The branch taken when [total_fraction] is zero: fractions stay
    [None]. *)
Lemma entries_all_resolved (dims : list Scalar) (fs : list Q) :
  map snd (map (entry_of size viewport) dims) = map Some fs ->
  no_fraction dims /\ fs = map (concrete_size size viewport) dims.
Proof.
  revert fs. induction dims as [|scalar dims IH]; intros [|f fs] H;
    try discriminate.
  - split; constructor.
  - cbn [map] in H. unfold entry_of at 1 in H. cbn [snd] in H.
    destruct (is_fraction scalar) eqn:Efr; [discriminate|].
    injection H as <- H. destruct (IH _ H) as [Hno ->].
    split; [constructor; assumption|reflexivity].
Qed.

Lemma entries_no_fraction (dims : list Scalar) :
  no_fraction dims ->
  map snd (map (entry_of size viewport) dims)
  = map Some (map (concrete_size size viewport) dims).
Proof.
  induction 1 as [|scalar dims Hs _ IH]; [reflexivity|].
  cbn [map]. unfold entry_of at 1. rewrite Hs, IH. reflexivity.
Qed.

Lemma exact_no_fraction (tf : Q) (dims : list Scalar) :
  no_fraction dims ->
  map (concrete_size size viewport) dims = map (exact_size dimensions total gutter size viewport tf) dims.
Proof.
  induction 1 as [|scalar dims Hs _ IH]; [reflexivity|].
  cbn [map]. unfold exact_size at 1. rewrite Hs, IH. reflexivity.
Qed.

Lemma truthy_zero_no_fraction (tf : Q) (dims : list Scalar) :
  no_fraction dims ->
  from_float (PyFloat.sum (weights dims)) = Ok tf -> truthy tf = false.
Proof.
  intros Hno. rewrite (no_fraction_weights _ Hno). cbn.
  intros H. injection H as <-. reflexivity.
Qed.

(** [resolve] returns when every concrete scalar resolves, the float sum
    of the weights is finite and, when there is a fraction, not zero. *)
Lemma resolve_ok (tf : Q) :
  Forall (resolvable size viewport) dimensions ->
  from_float (PyFloat.sum (weights dimensions)) = Ok tf ->
  truthy tf = true \/ no_fraction dimensions ->
  resolve dimensions total gutter size viewport
  = Ok (layout gutter 0 (map (exact_size dimensions total gutter size viewport tf) dimensions)).
Proof.
  intros Hres Htf Hbranch.
  unfold resolve, resolve_fractions.
  rewrite (resolve_scalars_ok _ _ _ Hres). cbn [bind].
  rewrite total_fraction_of_entries, Htf. cbn [bind].
  unfold resolved_fractions_of.
  assert (Hcases : truthy tf = true
                   \/ (truthy tf = false /\ no_fraction dimensions)).
  { destruct (truthy tf) eqn:E; [left; reflexivity|].
    right. split; [reflexivity|]. destruct Hbranch; [discriminate|].
    assumption. }
  destruct Hcases as [Ht|[Ht Hno]]; rewrite Ht.
  - rewrite consumed_of_entries.
    fold (remaining dimensions total gutter size viewport).
    rewrite fractions_comprehension by (eapply sum_finite; eassumption).
    cbn [bind]. rewrite <- (map_map (exact_size dimensions total gutter size viewport tf) Some).
    apply results_of_resolved.
  - cbn [bind]. rewrite (entries_no_fraction _ Hno).
    rewrite (exact_no_fraction tf _ Hno).
    apply results_of_resolved.
Qed.

(** Conversely, whenever [resolve] returns it returns that layout. *)
Lemma resolve_inv (results : list (Z * Z)) :
  resolve dimensions total gutter size viewport = Ok results ->
  exists tf,
    Forall (resolvable size viewport) dimensions /\
    from_float (PyFloat.sum (weights dimensions)) = Ok tf /\
    (truthy tf = true \/ no_fraction dimensions) /\
    results = layout gutter 0 (map (exact_size dimensions total gutter size viewport tf) dimensions).
Proof.
  unfold resolve, resolve_fractions. intros H.
  destruct (resolve_scalars dimensions size viewport)
    as [resolved|e] eqn:Escalars; [|discriminate].
  destruct (resolve_scalars_inv _ _ _ _ Escalars) as [Hres ->].
  cbn [bind] in H. rewrite total_fraction_of_entries in H.
  destruct (from_float (PyFloat.sum (weights dimensions)))
    as [tf|e] eqn:Etf; [|discriminate].
  cbn [bind] in H. exists tf.
  assert (Hbranch : truthy tf = true \/ no_fraction dimensions).
  { destruct (truthy tf) eqn:Et; [left; reflexivity|right].
    unfold resolved_fractions_of in H. rewrite Et in H. cbn [bind] in H.
    apply results_of_inv in H. destruct H as [fs [Hfs _]].
    apply entries_all_resolved in Hfs. apply Hfs. }
  repeat split; try assumption.
  pose proof (resolve_ok tf Hres Etf Hbranch) as Hok.
  unfold resolve, resolve_fractions in Hok.
  rewrite Escalars in Hok. cbn [bind] in Hok.
  rewrite total_fraction_of_entries, Etf in Hok. cbn [bind] in Hok.
  congruence.
Qed.

End Characterisation.

(** * The claims of the specification *)

(** ** Tiling *)

(** C1. Whenever [resolve] returns, the first offset is 0 and every offset
    is the previous offset plus the previous length plus the gutter.  This
    holds for every total and gutter, so in particular for the non-negative
    ones of the claim. *)
Theorem resolve_tiling (dimensions : list Scalar) (total gutter : Z)
        (size viewport : Size) (results : list (Z * Z)) :
  resolve dimensions total gutter size viewport = Ok results ->
  tiling gutter results.
Proof.
  intros H. apply resolve_inv in H.
  destruct H as [tf [_ [_ [_ ->]]]]. apply layout_tiling.
Qed.

Lemma resolve_tiling_witness : tiling 1 [(0, 3); (4, 14); (19, 1)].
Proof.
  apply (resolve_tiling [Cells f3; Flex f1; Cells f1] 20 1
                        size_40_20 size_40_20).
  vm_compute. reflexivity.
Defined.

(** X1. [resolve] returns one entry per dimension, in order. *)
Lemma resolve_length (dimensions : list Scalar) (total gutter : Z)
      (size viewport : Size) (results : list (Z * Z)) :
  resolve dimensions total gutter size viewport = Ok results ->
  length results = length dimensions.
Proof.
  intros H. apply resolve_inv in H.
  destruct H as [tf [_ [_ [_ ->]]]].
  rewrite layout_length, length_map. reflexivity.
Qed.

(** ** Scenario 1 *)

(** C2, as stated: the three pairs of the scenario are not what [resolve]
    returns. *)
Lemma scenario_1_as_stated_fails :
  resolve [Cells f3; Flex f1; Cells f1] 20 1 size_40_20 size_40_20
  <> Ok [(0, 3); (4, 13); (18, 1)].
Proof. vm_compute. discriminate. Qed.

(** C2, amended.  For [Cells(3), Flex(1), Cells(1)], total 20 and gutter 1
    the remaining 14 cells all go to the flex track: [resolve] returns
    (0,3), (4,14), (19,1). *)
Theorem scenario_1 :
  resolve [Cells f3; Flex f1; Cells f1] 20 1 size_40_20 size_40_20
  = Ok [(0, 3); (4, 14); (19, 1)].
Proof. vm_compute. reflexivity. Qed.

(** ** Scenario 2 and the order in which rounding is absorbed *)

(** C3, as stated: [resolve] does not give the first track the odd cell. *)
Lemma scenario_2_as_stated_fails :
  resolve [Flex f1; Flex f1] 20 1 size_40_20 size_40_20
  <> Ok [(0, 10); (11, 9)].
Proof. vm_compute. discriminate. Qed.

Lemma Qfloor_double (f : Q) : 2 * Qfloor f <= Qfloor (f + f).
Proof.
  pose proof (Qfloor_le f) as H.
  assert (Hle : (inject_Z (2 * Qfloor f) <= f + f)%Q).
  { rewrite inject_Z_mult. change (inject_Z 2) with 2%Q. lra. }
  apply Qfloor_resp_le in Hle. rewrite Qfloor_Z in Hle. exact Hle.
Qed.

(** C3, amended.  For [Flex(1), Flex(1)], total 20 and gutter 1 the
    remainder of 19 is split into 9 and 10: the second track absorbs the odd
    cell and [resolve] returns (0,9), (10,10).  More generally the first
    track gets the floor of its exact size, and in a list of two tracks of
    equal exact size, flex or concrete, the first is never the longer one:
    the fractional remainder is carried to later tracks. *)
Theorem scenario_2_later_tracks_absorb :
  resolve [Flex f1; Flex f1] 20 1 size_40_20 size_40_20
  = Ok [(0, 9); (10, 10)]
  /\ (forall dimensions total gutter size viewport f rf o l rest,
         resolve_fractions dimensions total gutter size viewport
         = Ok (Some f :: rf) ->
         resolve dimensions total gutter size viewport
         = Ok ((o, l) :: rest) ->
         o = 0 /\ l = Qfloor f)
  /\ (forall dimensions total gutter size viewport f1 f2 o1 l1 o2 l2,
         resolve_fractions dimensions total gutter size viewport
         = Ok [Some f1; Some f2] ->
         (f1 == f2)%Q ->
         resolve dimensions total gutter size viewport
         = Ok [(o1, l1); (o2, l2)] ->
         l1 <= l2).
Proof.
  split; [vm_compute; reflexivity|]. split.
  - intros dimensions total gutter size viewport f rf o l rest Hrf H.
    unfold resolve in H. rewrite Hrf in H. cbn [bind] in H.
    apply results_of_inv in H. destruct H as [fs [Hfs Hres]].
    destruct fs as [|f' fs]; [discriminate|].
    cbn [map] in Hfs. injection Hfs as <- _.
    cbn [layout] in Hres.
    assert (Ho : o = Qfloor 0) by congruence.
    assert (Hl : l = Qfloor (0 + f) - Qfloor 0) by congruence.
    split; [exact Ho|]. rewrite Hl.
    assert (E : (0 + f == f)%Q) by ring.
    rewrite (Qfloor_comp _ _ E). change (Qfloor 0) with 0. lia.
  - intros dimensions total gutter size viewport f1 f2 o1 l1 o2 l2 Hrf E H.
    unfold resolve in H. rewrite Hrf in H. cbn [bind] in H.
    change [Some f1; Some f2] with (map Some [f1; f2]) in H.
    rewrite results_of_resolved in H. cbn [layout] in H.
    assert (Hl1 : l1 = Qfloor (0 + f1) - Qfloor 0) by congruence.
    assert (Hl2 : l2 = Qfloor (0 + f1 + inject_Z gutter + f2)
                      - Qfloor (0 + f1 + inject_Z gutter)) by congruence.
    assert (E1 : (0 + f1 == f1)%Q) by ring.
    assert (E2 : (0 + f1 + inject_Z gutter + f2
                  == (f1 + f1) + inject_Z gutter)%Q)
      by (rewrite <- E; ring).
    assert (E3 : (0 + f1 + inject_Z gutter == f1 + inject_Z gutter)%Q)
      by ring.
    rewrite Hl1, Hl2, (Qfloor_comp _ _ E1), (Qfloor_comp _ _ E2),
      (Qfloor_comp _ _ E3), !Qfloor_plus_Z.
    change (Qfloor 0) with 0. pose proof (Qfloor_double f1). lia.
Qed.

Lemma scenario_2_later_tracks_absorb_witness :
  (0 = 0 /\ 9 = Qfloor (19 # 2)) /\ 9 <= 10.
Proof.
  split.
  - pose (dimensions := [Flex f1; Flex f1]).
    pose (f := exact_size dimensions 20 1 size_40_20 size_40_20
                          (get 0%Q (from_float (PyFloat.sum
                                                  (weights dimensions))))
                          (Flex f1)).
    apply (proj1 (proj2 scenario_2_later_tracks_absorb)
                 dimensions 20 1 size_40_20 size_40_20
                 f [Some f] 0 9 [(10, 10)]).
    + vm_compute. reflexivity.
    + vm_compute. reflexivity.
  - pose (dimensions := [Cells f9_5; Flex f2]).
    pose (tf := get 0%Q (from_float (PyFloat.sum (weights dimensions)))).
    apply (proj2 (proj2 scenario_2_later_tracks_absorb)
                 dimensions 20 1 size_40_20 size_40_20
                 (exact_size dimensions 20 1 size_40_20 size_40_20 tf
                             (Cells f9_5))
                 (exact_size dimensions 20 1 size_40_20 size_40_20 tf
                             (Flex f2))
                 0 9 10 10).
    + vm_compute. reflexivity.
    + vm_compute. reflexivity.
    + vm_compute. reflexivity.
Defined.

(** ** Non-negativity *)

Lemma max_fraction_non_negative (q : Q) : (0 <= max_fraction 0 q)%Q.
Proof.
  unfold max_fraction. destruct (Qle_bool q 0) eqn:E; [apply Qle_refl|].
  destruct (Qlt_le_dec 0 q) as [H|H]; [apply Qlt_le_weak, H|].
  apply Qle_bool_iff in H. congruence.
Qed.

Lemma weights_non_negative (size viewport : Size) (dims : list Scalar) :
  forallb (non_negative_request size viewport) dims = true ->
  Forall (fun w => non_negative_float w = true) (weights dims).
Proof.
  unfold weights. induction dims as [|scalar dims IH]; cbn [forallb filter].
  - constructor.
  - intros H. apply andb_true_iff in H. destruct H as [Hs Hdims].
    unfold non_negative_request in Hs.
    destruct (is_fraction scalar); cbn [map]; [constructor|]; auto.
Qed.

Lemma exact_size_non_negative (dimensions : list Scalar) (total gutter : Z)
      (size viewport : Size) (tf : Q) (scalar : Scalar) :
  (0 <= tf)%Q ->
  non_negative_request size viewport scalar = true ->
  (0 <= exact_size dimensions total gutter size viewport tf scalar)%Q.
Proof.
  intros Htf. unfold non_negative_request, exact_size, weight, concrete_size.
  destruct (is_fraction scalar).
  - intros Hw. apply Qmult_le_0_compat.
    + destruct (from_float (value scalar)) as [w|e] eqn:E; cbn [get];
        [|apply Qle_refl].
      eapply from_float_non_negative; eassumption.
    + unfold Qdiv. apply Qmult_le_0_compat.
      * apply max_fraction_non_negative.
      * apply Qinv_le_0_compat, Htf.
  - destruct (resolve_dimension scalar size viewport) as [f|e]; cbn [get].
    + intros H. apply Qle_bool_iff, H.
    + intros _. apply Qle_refl.
Qed.

Lemma rounds_all_non_negative (fs : list Q) (results : list (Z * Z)) :
  Forall2 rounds fs results ->
  Forall (fun f => (0 <= f)%Q) fs ->
  Forall (fun entry => 0 <= snd entry) results.
Proof.
  induction 1 as [|f entry fs results Hr _ IH]; intros Hfs; constructor;
    inversion Hfs; subst.
  - eapply rounds_non_negative; eassumption.
  - apply IH. assumption.
Qed.

(** C5. When every concrete size and every flex weight is non-negative,
    every length that [resolve] returns is non-negative, also when the
    sizes asked for exceed [total].  The bounds on [total] and [gutter] of
    the claim are not needed. *)
Theorem resolve_non_negative (dimensions : list Scalar) (total gutter : Z)
        (size viewport : Size) (results : list (Z * Z)) :
  forallb (non_negative_request size viewport) dimensions = true ->
  resolve dimensions total gutter size viewport = Ok results ->
  Forall (fun entry => 0 <= snd entry) results.
Proof.
  intros Hreq H. apply resolve_inv in H.
  destruct H as [tf [_ [Htf [_ ->]]]].
  assert (Hpos : (0 <= tf)%Q).
  { eapply sum_non_negative; [|exact Htf].
    eapply weights_non_negative, Hreq. }
  eapply rounds_all_non_negative; [apply layout_rounds|].
  apply Forall_forall. intros f Hin. apply in_map_iff in Hin.
  destruct Hin as [scalar [<- Hin]].
  apply exact_size_non_negative; [exact Hpos|].
  rewrite forallb_forall in Hreq. apply Hreq, Hin.
Qed.

Lemma resolve_non_negative_witness :
  Forall (fun entry => 0 <= snd entry) [(0, 25); (25, 0); (25, 3)].
Proof.
  apply (resolve_non_negative [Cells f25; Flex f1; Cells f3] 20 0
                              size_40_20 size_40_20).
  - vm_compute. reflexivity.
  - vm_compute. reflexivity.
Defined.

(** ** Zero total weight *)

Lemma accumulate_from_None (gutter : Z) (rf : list (option Q)) :
  forall running,
    In None rf ->
    accumulate_from
      running
      (flat_map (fun fraction => [fraction; Some (inject_Z gutter)]) rf)
    = Raise TypeError.
Proof.
  induction rf as [|[f|] rf IH]; intros running Hin.
  - destruct Hin.
  - destruct Hin as [Hin|Hin]; [discriminate|].
    cbn [flat_map app accumulate_from]. rewrite (IH _ Hin). reflexivity.
  - reflexivity.
Qed.

Lemma results_of_None (gutter : Z) (rf : list (option Q)) :
  In None rf ->
  results_of rf gutter = Raise AttributeError
  \/ results_of rf gutter = Raise TypeError.
Proof.
  unfold results_of. destruct rf as [|[f|] rf]; intros Hin.
  - destruct Hin.
  - right. destruct Hin as [Hin|Hin]; [discriminate|].
    cbn [flat_map app accumulate_floor accumulate_from].
    rewrite (accumulate_from_None _ _ _ Hin). reflexivity.
  - left. reflexivity.
Qed.

Lemma entries_fraction_None (size viewport : Size) (dims : list Scalar) :
  existsb is_fraction dims = true ->
  In None (map snd (map (entry_of size viewport) dims)).
Proof.
  induction dims as [|scalar dims IH]; cbn [existsb map]; [discriminate|].
  intros H. unfold entry_of at 1. cbn [snd].
  destruct (is_fraction scalar); [left; reflexivity|].
  right. apply IH, H.
Qed.

Lemma no_fraction_existsb (dims : list Scalar) :
  no_fraction dims -> existsb is_fraction dims = false.
Proof.
  induction 1 as [|scalar dims Hs _ IH]; [reflexivity|].
  cbn [existsb]. rewrite Hs, IH. reflexivity.
Qed.

(** C10. When there is a flex track and the flex weights sum to zero,
    [resolve] does not return: it raises.  When the concrete scalars
    resolve, the list of sizes it goes on with still holds [None] for the
    flex tracks, and it is the accumulation of the offsets that raises. *)
Theorem resolve_zero_weight_raises (dimensions : list Scalar)
        (total gutter : Z) (size viewport : Size) (tf : Q) :
  existsb is_fraction dimensions = true ->
  from_float (PyFloat.sum (weights dimensions)) = Ok tf ->
  truthy tf = false ->
  (exists e, resolve dimensions total gutter size viewport = Raise e)
  /\ (Forall (resolvable size viewport) dimensions ->
      exists rf,
        resolve_fractions dimensions total gutter size viewport = Ok rf
        /\ In None rf
        /\ (resolve dimensions total gutter size viewport
            = Raise AttributeError
            \/ resolve dimensions total gutter size viewport
               = Raise TypeError)).
Proof.
  intros Hflex Htf Hzero. split.
  - destruct (resolve dimensions total gutter size viewport)
      as [results|e] eqn:E; [|exists e; reflexivity].
    apply resolve_inv in E. destruct E as [tf' [_ [Htf' [Hbranch _]]]].
    assert (tf' = tf) by congruence. subst tf'.
    destruct Hbranch as [Ht|Hno]; [congruence|].
    apply no_fraction_existsb in Hno. congruence.
  - intros Hres.
    exists (map snd (map (entry_of size viewport) dimensions)).
    assert (Hrf : resolve_fractions dimensions total gutter size viewport
                  = Ok (map snd (map (entry_of size viewport) dimensions))).
    { unfold resolve_fractions.
      rewrite (resolve_scalars_ok _ _ _ Hres). cbn [bind].
      rewrite total_fraction_of_entries, Htf. cbn [bind].
      unfold resolved_fractions_of. rewrite Hzero. reflexivity. }
    pose proof (entries_fraction_None size viewport _ Hflex) as Hin.
    repeat split; [exact Hrf|exact Hin|].
    unfold resolve. rewrite Hrf. cbn [bind].
    apply results_of_None, Hin.
Qed.

Lemma resolve_zero_weight_raises_witness :
  exists e, resolve [Flex f0] 20 0 size_40_20 size_40_20 = Raise e.
Proof.
  apply (resolve_zero_weight_raises [Flex f0] 20 0 size_40_20 size_40_20 0%Q);
    reflexivity.
Defined.

(** ** Concrete sizes are kept up to rounding *)

Lemma rounds_kept (c : Q) (entry : Z * Z) : rounds c entry -> kept c entry.
Proof.
  intros H. destruct (rounds_within_one _ _ H) as [Hl Hu].
  repeat split; try assumption. apply rounds_integer, H.
Qed.

Lemma layout_Forall2 (P : Scalar -> Z * Z -> Prop) (gutter : Z)
      (size_of : Scalar -> Q) (dims : list Scalar) :
  (forall scalar entry,
      In scalar dims -> rounds (size_of scalar) entry -> P scalar entry) ->
  forall running, Forall2 P dims (layout gutter running (map size_of dims)).
Proof.
  induction dims as [|scalar dims IH]; intros HP running; cbn [map layout];
    constructor.
  - apply HP; [left; reflexivity|]. exists running. reflexivity.
  - apply IH. intros s e Hin. apply HP. right. exact Hin.
Qed.

Lemma Forall2_map_in {A B : Type} (P : A -> B -> Prop) (f : A -> B)
      (l : list A) :
  (forall a, In a l -> P a (f a)) -> Forall2 P l (map f l).
Proof.
  induction l as [|a l IH]; intros H; cbn [map]; constructor.
  - apply H. left. reflexivity.
  - apply IH. intros a' Hin. apply H. right. exact Hin.
Qed.

Lemma concrete_size_resolved (size viewport : Size) (scalar : Scalar) :
  resolvable size viewport scalar ->
  is_fraction scalar = false ->
  resolve_dimension scalar size viewport
  = Ok (concrete_size size viewport scalar).
Proof.
  intros Hres Hfr. destruct (Hres Hfr) as [c Hc].
  unfold concrete_size. rewrite Hc. reflexivity.
Qed.

(** ** No-flex pass-through *)

(** C7, as stated: a size that is not a whole number is not passed
    through; [Cells(2.5)] resolves to 5/2 and gets the length 2. *)
Lemma pass_through_as_stated_fails :
  resolve [Cells f2_5] 20 0 size_40_20 size_40_20 = Ok [(0, 2)]
  /\ (exists c, resolve_dimension (Cells f2_5) size_40_20 size_40_20 = Ok c
                /\ (c == 5 # 2)%Q)
  /\ ~ (inject_Z 2 == 5 # 2)%Q.
Proof.
  split; [vm_compute; reflexivity|].
  split; [eexists; split; [reflexivity|vm_compute; reflexivity]|].
  intros H. vm_compute in H. discriminate.
Qed.

(** C7, amended.  With no flex track nothing is redistributed: the exact
    size of every track is the concrete resolution of its scalar, and the
    length returned equals it when it is a whole number of cells; otherwise
    the length is that size rounded by the floors, within one cell of it. *)
Theorem resolve_no_flex_pass_through (dimensions : list Scalar)
        (total gutter : Z) (size viewport : Size) (results : list (Z * Z)) :
  forallb (fun scalar => negb (is_fraction scalar)) dimensions = true ->
  resolve dimensions total gutter size viewport = Ok results ->
  (exists rf,
      resolve_fractions dimensions total gutter size viewport = Ok rf /\
      Forall2 (fun scalar fraction =>
                 exists c, resolve_dimension scalar size viewport = Ok c
                           /\ fraction = Some c)
              dimensions rf)
  /\ Forall2 (fun scalar entry =>
                exists c, resolve_dimension scalar size viewport = Ok c
                          /\ kept c entry)
             dimensions results.
Proof.
  intros Hno H.
  assert (Hnf : no_fraction dimensions).
  { apply Forall_forall. intros s Hin. rewrite forallb_forall in Hno.
    apply negb_true_iff, Hno, Hin. }
  apply resolve_inv in H. destruct H as [tf [Hres [Htf [_ ->]]]].
  unfold no_fraction in Hnf. rewrite Forall_forall in Hres, Hnf.
  split.
  - exists (map Some (map (concrete_size size viewport) dimensions)).
    split.
    + unfold resolve_fractions.
      rewrite (resolve_scalars_ok _ _ _ (proj2 (Forall_forall _ _) Hres)).
      cbn [bind]. rewrite total_fraction_of_entries, Htf. cbn [bind].
      unfold resolved_fractions_of.
      rewrite (truthy_zero_no_fraction tf dimensions
                 (proj2 (Forall_forall _ _) Hnf) Htf).
      rewrite entries_no_fraction by (apply Forall_forall, Hnf).
      reflexivity.
    + rewrite map_map. apply Forall2_map_in. intros scalar Hin.
      exists (concrete_size size viewport scalar). split; [|reflexivity].
      apply concrete_size_resolved; [apply Hres|apply Hnf]; exact Hin.
  - apply layout_Forall2. intros scalar entry Hin Hr.
    exists (concrete_size size viewport scalar). split.
    + apply concrete_size_resolved; [apply Hres|apply Hnf]; exact Hin.
    + apply rounds_kept. unfold exact_size in Hr.
      rewrite (Hnf _ Hin) in Hr. exact Hr.
Qed.

Lemma resolve_no_flex_pass_through_witness :
  Forall2 (fun scalar entry =>
             exists c, resolve_dimension scalar size_40_20 size_40_20 = Ok c
                       /\ kept c entry)
          [Cells f3; Cells f2_5; Percent f25 ContainerWidth]
          [(0, 3); (4, 2); (7, 10)].
Proof.
  apply (resolve_no_flex_pass_through
           [Cells f3; Cells f2_5; Percent f25 ContainerWidth] 20 1
           size_40_20 size_40_20).
  - reflexivity.
  - vm_compute. reflexivity.
Defined.

(** ** Overflow policy *)

(** C6, as stated: with a flex track of weight 0 an overflowing list makes
    [resolve] raise, and an oversized size that is not a whole number is
    rounded. *)
Lemma overflow_as_stated_fails :
  resolve [Cells f25; Flex f0] 20 0 size_40_20 size_40_20 = Raise TypeError
  /\ resolve [Cells f25_5] 20 0 size_40_20 size_40_20 = Ok [(0, 25)]
  /\ (exists c, resolve_dimension (Cells f25_5) size_40_20 size_40_20 = Ok c
                /\ (c == 51 # 2)%Q).
Proof.
  split; [vm_compute; reflexivity|].
  split; [vm_compute; reflexivity|].
  eexists. split; [reflexivity|vm_compute; reflexivity].
Qed.

Lemma max_fraction_clamped (q : Q) : (q <= 0)%Q -> max_fraction 0 q = 0%Q.
Proof.
  intros H. unfold max_fraction. apply Qle_bool_iff in H. rewrite H.
  reflexivity.
Qed.

(** C6, amended.  When the concrete sizes plus the gutters exceed [total],
    every concrete scalar resolves and the float sum of the flex weights is
    finite and, if there is a flex track, not zero, [resolve] returns: every
    flex track gets the length 0 and no concrete track is clamped to
    [total]; a concrete track gets its nominal size when that is a whole
    number of cells, and that size rounded by the floors, within one cell of
    it, otherwise.  [Cells(25)] with total 20 and gutter 0 yields (0,25). *)
Theorem resolve_overflow (dimensions : list Scalar) (total gutter : Z)
        (size viewport : Size) (tf : Q) :
  Forall (resolvable size viewport) dimensions ->
  from_float (PyFloat.sum (weights dimensions)) = Ok tf ->
  truthy tf = true \/ no_fraction dimensions ->
  (inject_Z total
   < consumed dimensions size viewport
     + inject_Z (gutter * (Z.of_nat (length dimensions) - 1)))%Q ->
  (exists results,
      resolve dimensions total gutter size viewport = Ok results /\
      Forall2 (fun scalar entry =>
                 if is_fraction scalar then snd entry = 0
                 else exists c,
                     resolve_dimension scalar size viewport = Ok c
                     /\ kept c entry)
              dimensions results)
  /\ resolve [Cells f25] 20 0 size_40_20 size_40_20 = Ok [(0, 25)].
Proof.
  intros Hres Htf Hbranch Hover. split; [|vm_compute; reflexivity].
  eexists. split; [apply (resolve_ok _ _ _ _ _ tf Hres Htf Hbranch)|].
  apply layout_Forall2. intros scalar entry Hin Hr.
  unfold exact_size in Hr. destruct (is_fraction scalar) eqn:Efr.
  - apply (rounds_zero _ _ Hr).
    unfold remaining. rewrite max_fraction_clamped.
    + unfold Qdiv. ring.
    + unfold Z.sub. rewrite inject_Z_plus, inject_Z_opp.
      unfold Z.sub in Hover. lra.
  - exists (concrete_size size viewport scalar). split.
    + apply concrete_size_resolved; [|exact Efr].
      rewrite Forall_forall in Hres. apply Hres, Hin.
    + apply rounds_kept, Hr.
Qed.

Lemma resolve_overflow_witness :
  exists results,
    resolve [Cells f25; Flex f1; Cells f3] 20 1 size_40_20 size_40_20
    = Ok results /\
    Forall2 (fun scalar entry =>
               if is_fraction scalar then snd entry = 0
               else exists c,
                   resolve_dimension scalar size_40_20 size_40_20 = Ok c
                   /\ kept c entry)
            [Cells f25; Flex f1; Cells f3] results.
Proof.
  apply (resolve_overflow [Cells f25; Flex f1; Cells f3] 20 1
                          size_40_20 size_40_20
                          (get 0%Q (from_float (PyFloat.sum [f1])))).
  - all_resolvable.
  - reflexivity.
  - left. reflexivity.
  - vm_compute. reflexivity.
Defined.

(** ** Argument checking *)

(** C9, as stated: a negative total or a negative gutter is not rejected. *)
Lemma negative_arguments_as_stated_fails :
  resolve [Cells f3] (-5) 0 size_40_20 size_40_20 = Ok [(0, 3)]
  /\ resolve [Cells f3; Cells f1] 20 (-1) size_40_20 size_40_20
     = Ok [(0, 3); (2, 1)].
Proof. split; vm_compute; reflexivity. Qed.

Lemma resolvable_finite (size viewport : Size) (scalar : Scalar) :
  is_fraction scalar = false ->
  resolvable size viewport scalar -> finite (value scalar).
Proof.
  intros Hfr Hres. destruct (Hres Hfr) as [c Hc]. unfold finite.
  destruct scalar as [n|p ref|w]; cbn in *.
  - exists c. exact Hc.
  - destruct (from_float p) as [q|e]; [exists q; reflexivity|discriminate].
  - discriminate.
Qed.

Lemma weights_finite (dims : list Scalar) (scalar : Scalar) :
  Forall finite (weights dims) ->
  In scalar dims -> is_fraction scalar = true -> finite (value scalar).
Proof.
  unfold weights. intros Hfin Hin Hfr. rewrite Forall_forall in Hfin.
  apply Hfin, in_map, filter_In. split; assumption.
Qed.

(** C9, amended.  [resolve] does not reject a negative total or a negative
    gutter: with either, it returns a result list, one entry per dimension,
    whenever every concrete scalar resolves and the float sum of the flex
    weights is finite and, if there is a flex track, not zero.  A list that
    holds a scalar whose float is an infinity or NaN makes it raise, and no
    result list is returned. *)
Theorem resolve_no_argument_check (dimensions : list Scalar)
        (total gutter : Z) (size viewport : Size) :
  (forall tf,
      total < 0 \/ gutter < 0 ->
      Forall (resolvable size viewport) dimensions ->
      from_float (PyFloat.sum (weights dimensions)) = Ok tf ->
      truthy tf = true \/ no_fraction dimensions ->
      exists results,
        resolve dimensions total gutter size viewport = Ok results
        /\ length results = length dimensions)
  /\ (Exists (fun scalar => ~ finite (value scalar)) dimensions ->
      exists e, resolve dimensions total gutter size viewport = Raise e).
Proof.
  split.
  - intros tf _ Hres Htf Hbranch. eexists.
    split; [apply (resolve_ok _ _ _ _ _ tf Hres Htf Hbranch)|].
    rewrite layout_length, length_map. reflexivity.
  - intros Hex.
    destruct (resolve dimensions total gutter size viewport)
      as [results|e] eqn:E; [exfalso|exists e; reflexivity].
    apply resolve_inv in E. destruct E as [tf [Hres [Htf _]]].
    apply sum_finite in Htf. apply Exists_exists in Hex.
    destruct Hex as [scalar [Hin Hnot]]. apply Hnot.
    destruct (is_fraction scalar) eqn:Efr.
    + eapply weights_finite; eassumption.
    + eapply resolvable_finite; [exact Efr|].
      rewrite Forall_forall in Hres. apply Hres, Hin.
Qed.

Lemma resolve_no_argument_check_witness :
  exists results,
    resolve [Cells f3; Flex f1] (-5) (-1) size_40_20 size_40_20 = Ok results
    /\ length results = 2%nat.
Proof.
  apply (proj1 (resolve_no_argument_check [Cells f3; Flex f1] (-5) (-1)
                                          size_40_20 size_40_20)
               (get 0%Q (from_float (PyFloat.sum [f1])))).
  - left. reflexivity.
  - all_resolvable.
  - reflexivity.
  - left. reflexivity.
Defined.

(** ** Exact arithmetic and flex proportionality *)

(** C8 fails on the code: the flex weights are added as floats, and the
    rounding of that sum reaches the result.  For the weights [0.1] and
    [0.2] the float sum is 0.30000000000000004, above the exact sum of the
    two floats; with total 20 and gutter 0 [resolve] returns the lengths 6
    and 13 where exact arithmetic gives 6 and 14. *)
Theorem float_sum_reaches_result :
  PyFloat.sum [f0_1; f0_2] = S754_finite false 5404319552844596 (-54)
  /\ (exists tf tw,
         total_fraction_of [(Flex f0_1, None); (Flex f0_2, None)] = Ok tf
         /\ total_weight_of [(Flex f0_1, None); (Flex f0_2, None)] = Ok tw
         /\ (tw < tf)%Q)
  /\ resolve [Flex f0_1; Flex f0_2] 20 0 size_40_20 size_40_20
     = Ok [(0, 6); (6, 13)]
  /\ resolve_exact [Flex f0_1; Flex f0_2] 20 0 size_40_20 size_40_20
     = Ok [(0, 6); (6, 14)].
Proof.
  split; [vm_compute; reflexivity|].
  split; [do 2 eexists; repeat split; vm_compute; reflexivity|].
  split; vm_compute; reflexivity.
Qed.

(** The compensated sum of later Python versions rounds to the same
    float on these weights. *)
Lemma sum_compensated_same :
  sum_compensated [f0_1; f0_2] = PyFloat.sum [f0_1; f0_2].
Proof. vm_compute. reflexivity. Qed.

(** C4 fails on the code at the same input: two flex tracks of weights
    [0.1] and [0.2], total 20, gutter 0.  The lengths 6 and 13 add up to
    19, one cell short of the total. *)
Theorem flex_lengths_miss_total :
  resolve [Flex f0_1; Flex f0_2] 20 0 size_40_20 size_40_20
  = Ok [(0, 6); (6, 13)]
  /\ 6 + 13 + 0 * (2 - 1) <> 20.
Proof. split; [vm_compute; reflexivity|lia]. Qed.

(** *** Where the two claims do hold: an exact float sum *)

Section ExactSum.

Local Open Scope Q_scope.

Lemma fold_left_Qplus (l : list Q) :
  forall a, fold_left Qplus l a == a + fold_right Qplus 0 l.
Proof.
  induction l as [|x l IH]; intros a; cbn [fold_left fold_right].
  - ring.
  - rewrite IH. ring.
Qed.

Lemma sum_fractions_fold_right (l : list Q) :
  sum_fractions l == fold_right Qplus 0 l.
Proof. unfold sum_fractions. rewrite fold_left_Qplus. ring. Qed.

Lemma fold_right_scaled {A : Type} (w : A -> Q) (u : Q) (l : list A) :
  fold_right Qplus 0 (map (fun a => w a * u) l)
  == fold_right Qplus 0 (map w l) * u.
Proof.
  induction l as [|a l IH]; cbn [map fold_right]; [ring|].
  rewrite IH. ring.
Qed.

Lemma truthy_comp (q q' : Q) : q == q' -> truthy q = truthy q'.
Proof.
  intros E. destruct (truthy q) eqn:Hq, (truthy q') eqn:Hq'; try reflexivity.
  - apply truthy_spec in Hq. apply not_true_iff_false in Hq'.
    exfalso. apply Hq'. apply truthy_spec. rewrite <- E. exact Hq.
  - apply truthy_spec in Hq'. apply not_true_iff_false in Hq.
    exfalso. apply Hq. apply truthy_spec. rewrite E. exact Hq'.
Qed.

Lemma layout_ext (gutter : Z) (fs fs' : list Q) :
  Forall2 Qeq fs fs' ->
  forall running, layout gutter running fs = layout gutter running fs'.
Proof.
  induction 1 as [|f f' fs fs' E _ IH]; intros running; [reflexivity|].
  cbn [layout].
  assert (E1 : running + f == running + f') by (rewrite E; reflexivity).
  assert (E2 : running + f + inject_Z gutter
               == running + f' + inject_Z gutter) by (rewrite E; reflexivity).
  rewrite (Qfloor_comp _ _ E1), (layout_comp gutter fs _ _ E2), IH.
  reflexivity.
Qed.

End ExactSum.

Lemma max_fraction_id (q : Q) : (0 <= q)%Q -> (max_fraction 0 q == q)%Q.
Proof.
  intros H. unfold max_fraction. destruct (Qle_bool q 0) eqn:E;
    [|reflexivity].
  apply Qle_bool_iff in E. apply Qle_antisym; assumption.
Qed.

Lemma all_fraction_filter (dims : list Scalar) :
  forallb is_fraction dims = true ->
  filter is_fraction dims = dims
  /\ filter (fun scalar => negb (is_fraction scalar)) dims = [].
Proof.
  induction dims as [|scalar dims IH]; cbn [forallb filter];
    [split; reflexivity|].
  intros H. apply andb_true_iff in H. destruct H as [Hs Hdims].
  destruct (IH Hdims) as [E1 E2]. rewrite Hs. cbn [negb].
  rewrite E1, E2. split; reflexivity.
Qed.

Lemma all_fraction_resolvable (size viewport : Size) (dims : list Scalar) :
  forallb is_fraction dims = true -> Forall (resolvable size viewport) dims.
Proof.
  intros H. apply Forall_forall. intros scalar Hin Hfr.
  rewrite forallb_forall in H. rewrite (H _ Hin) in Hfr. discriminate.
Qed.

(** With flex tracks only and a float sum of the weights that is exact,
    the lengths and the gutters between them add up to [total]. *)
Lemma flex_lengths_sum (dimensions : list Scalar) (total gutter : Z)
      (size viewport : Size) (tf : Q) :
  forallb is_fraction dimensions = true ->
  from_float (PyFloat.sum (weights dimensions)) = Ok tf ->
  truthy tf = true ->
  (tf == total_weight dimensions)%Q ->
  gutter * (Z.of_nat (length dimensions) - 1) <= total ->
  exists results,
    resolve dimensions total gutter size viewport = Ok results
    /\ fold_right Z.add 0 (map snd results)
       + gutter * (Z.of_nat (length dimensions) - 1) = total.
Proof.
  intros Hflex Htf Ht Hexact Hfit.
  pose proof (all_fraction_resolvable size viewport _ Hflex) as Hres.
  eexists. split; [apply (resolve_ok _ _ _ _ _ tf Hres Htf); left; exact Ht|].
  pose proof (layout_telescope
                gutter
                (map (exact_size dimensions total gutter size viewport tf)
                     dimensions) 0%Q) as Htel.
  rewrite length_map in Htel. change (Qfloor 0) with 0 in Htel.
  destruct (all_fraction_filter _ Hflex) as [Efl Enot].
  set (n := Z.of_nat (length dimensions)) in *.
  set (u := (remaining dimensions total gutter size viewport / tf)%Q).
  assert (Hsizes :
            (fold_right Qplus 0
                        (map (exact_size dimensions total gutter size
                                         viewport tf) dimensions)
             == inject_Z (total - gutter * (n - 1)))%Q).
  { rewrite (map_ext_in _ (fun scalar => (weight scalar * u)%Q)).
    - rewrite fold_right_scaled.
      assert (Hw : (fold_right Qplus 0 (map weight dimensions) == tf)%Q).
      { rewrite Hexact. unfold total_weight.
        rewrite sum_fractions_fold_right, Efl. reflexivity. }
      rewrite Hw. unfold u, remaining, consumed. rewrite Enot.
      cbn [map]. change (sum_fractions []) with 0%Q. fold n.
      rewrite max_fraction_id.
      + apply truthy_spec in Ht. field. exact Ht.
      + unfold Qminus. rewrite Qplus_0_r.
        rewrite <- (Zle_Qle 0). lia.
    - intros scalar Hin. unfold exact_size.
      rewrite forallb_forall in Hflex. rewrite (Hflex _ Hin). reflexivity. }
  assert (Hfloor :
            Qfloor (0 + fold_right Qplus 0
                          (map (exact_size dimensions total gutter size
                                           viewport tf) dimensions)
                    + inject_Z (gutter * n))%Q = total + gutter).
  { rewrite <- (Qfloor_Z (total + gutter)). apply Qfloor_comp.
    replace (total + gutter)
      with ((total - gutter * (n - 1)) + gutter * n) by lia.
    rewrite inject_Z_plus, Hsizes. ring. }
  rewrite Hfloor in Htel. lia.
Qed.

Lemma flex_lengths_sum_example :
  exists results,
    resolve [Flex f1; Flex f3; Flex f1] 20 1 size_40_20 size_40_20
    = Ok results
    /\ fold_right Z.add 0 (map snd results) + 1 * (3 - 1) = 20.
Proof.
  apply (flex_lengths_sum [Flex f1; Flex f3; Flex f1] 20 1
                          size_40_20 size_40_20
                          (get 0%Q (from_float (PyFloat.sum [f1; f3; f1])))).
  - reflexivity.
  - reflexivity.
  - reflexivity.
  - vm_compute. reflexivity.
  - vm_compute. discriminate.
Defined.

Lemma Forall2_nth_error {A B : Type} (P : A -> B -> Prop)
      (l : list A) (l' : list B) :
  Forall2 P l l' ->
  forall i a b,
    nth_error l i = Some a -> nth_error l' i = Some b -> P a b.
Proof.
  induction 1 as [|x y l l' Hxy _ IH]; intros [|i] a b Ha Hb;
    try discriminate.
  - cbn in Ha, Hb. congruence.
  - cbn in Ha, Hb. eapply IH; eassumption.
Qed.

Lemma scaled_bound (a w : Q) :
  (-1 < a)%Q -> (a < 1)%Q ->
  (- Qabs w <= a * w)%Q /\ (a * w <= Qabs w)%Q.
Proof.
  intros Hl Hu. destruct (Qlt_le_dec w 0) as [N|P].
  - rewrite (Qabs_neg w) by (apply Qlt_le_weak; assumption).
    assert (A : (0 <= (a + 1) * - w)%Q) by (apply Qmult_le_0_compat; lra).
    assert (B : (0 <= (1 - a) * - w)%Q) by (apply Qmult_le_0_compat; lra).
    split; lra.
  - rewrite (Qabs_pos w) by assumption.
    assert (A : (0 <= (a + 1) * w)%Q) by (apply Qmult_le_0_compat; lra).
    assert (B : (0 <= (1 - a) * w)%Q) by (apply Qmult_le_0_compat; lra).
    split; lra.
Qed.

Lemma cross_ratio_bound (l1 l2 w1 w2 u : Q) :
  (w1 * u - 1 < l1)%Q -> (l1 < w1 * u + 1)%Q ->
  (w2 * u - 1 < l2)%Q -> (l2 < w2 * u + 1)%Q ->
  (Qabs (l1 * w2 - l2 * w1) <= Qabs w1 + Qabs w2)%Q.
Proof.
  intros H1 H2 H3 H4. apply Qabs_Qle_condition.
  destruct (scaled_bound (l1 - w1 * u) w2) as [A1 A2]; [lra|lra|].
  destruct (scaled_bound (l2 - w2 * u) w1) as [B1 B2]; [lra|lra|].
  split; lra.
Qed.

(** With flex tracks only, the lengths of any two tracks are in the ratio
    of their weights to within one rounding unit each: cross multiplied,
    they differ by at most the sum of the two weights. *)
Lemma flex_proportional (dimensions : list Scalar) (total gutter : Z)
      (size viewport : Size) (results : list (Z * Z))
      (i j : nat) (s1 s2 : Scalar) (e1 e2 : Z * Z) :
  forallb is_fraction dimensions = true ->
  resolve dimensions total gutter size viewport = Ok results ->
  nth_error dimensions i = Some s1 -> nth_error results i = Some e1 ->
  nth_error dimensions j = Some s2 -> nth_error results j = Some e2 ->
  (Qabs (inject_Z (snd e1) * weight s2 - inject_Z (snd e2) * weight s1)
   <= Qabs (weight s1) + Qabs (weight s2))%Q.
Proof.
  intros Hflex H Hs1 He1 Hs2 He2. apply resolve_inv in H.
  destruct H as [tf [_ [_ [_ ->]]]].
  set (u := (remaining dimensions total gutter size viewport / tf)%Q).
  assert (Hall : Forall2 (fun scalar entry =>
                            rounds (weight scalar * u)%Q entry)
                         dimensions
                         (layout gutter 0
                                 (map (exact_size dimensions total gutter
                                                  size viewport tf)
                                      dimensions))).
  { apply layout_Forall2. intros scalar entry Hin Hr.
    unfold exact_size in Hr. rewrite forallb_forall in Hflex.
    rewrite (Hflex _ Hin) in Hr. exact Hr. }
  pose proof (Forall2_nth_error _ _ _ Hall i _ _ Hs1 He1) as R1.
  pose proof (Forall2_nth_error _ _ _ Hall j _ _ Hs2 He2) as R2.
  apply rounds_within_one in R1, R2.
  destruct R1 as [R1 R1'], R2 as [R2 R2'].
  apply (cross_ratio_bound _ _ _ _ u); assumption.
Qed.

(** *** [resolve] against exact arithmetic *)

Lemma Forall2_map_both {A B : Type} (R : B -> B -> Prop) (f g : A -> B)
      (l : list A) :
  (forall a, R (f a) (g a)) -> Forall2 R (map f l) (map g l).
Proof.
  intros H. induction l as [|a l IH]; cbn [map]; constructor;
    [apply H|exact IH].
Qed.

Lemma total_weight_of_entries (size viewport : Size) (dims : list Scalar) :
  Forall finite (weights dims) ->
  total_weight_of (map (entry_of size viewport) dims)
  = Ok (total_weight dims).
Proof.
  intros Hfin. unfold total_weight_of, total_weight.
  assert (E : comprehension
                (fun entry : Scalar * option Q =>
                   from_float (value (fst entry)))
                (filter unresolved (map (entry_of size viewport) dims))
              = Ok (map weight (filter is_fraction dims))).
  { unfold weights in Hfin.
    induction dims as [|scalar dims IH]; [reflexivity|].
    cbn [map filter] in *. unfold unresolved at 1, entry_of at 1.
    cbn [snd]. destruct (is_fraction scalar).
    - cbn [map] in Hfin. inversion Hfin as [|? ? [w Hw] Hrest]; subst.
      cbn [comprehension map].
      change (fst (entry_of size viewport scalar)) with scalar.
      unfold weight at 1. rewrite Hw. cbn [bind get].
      rewrite (IH Hrest). reflexivity.
    - apply IH, Hfin. }
  rewrite E. reflexivity.
Qed.

(** X20. Refinement: whenever the float sum of the flex weights equals
    their exact sum, [resolve] computes what exact arithmetic computes, and
    raises what it raises. *)
Lemma resolve_refines_exact (dimensions : list Scalar) (total gutter : Z)
      (size viewport : Size) (tf : Q) :
  from_float (PyFloat.sum (weights dimensions)) = Ok tf ->
  (tf == total_weight dimensions)%Q ->
  resolve dimensions total gutter size viewport
  = resolve_exact dimensions total gutter size viewport.
Proof.
  intros Htf Hexact. unfold resolve, resolve_fractions, resolve_exact.
  destruct (resolve_scalars dimensions size viewport)
    as [resolved|e] eqn:Escalars; [|reflexivity].
  destruct (resolve_scalars_inv _ _ _ _ Escalars) as [Hres ->].
  cbn [bind]. rewrite total_fraction_of_entries, Htf.
  pose proof (sum_finite _ _ Htf) as Hfin.
  rewrite (total_weight_of_entries _ _ _ Hfin). cbn [bind].
  unfold resolved_fractions_of.
  rewrite <- (truthy_comp _ _ Hexact).
  destruct (truthy tf) eqn:Ht; [|reflexivity].
  rewrite consumed_of_entries.
  fold (remaining dimensions total gutter size viewport).
  rewrite !fractions_comprehension by exact Hfin.
  cbn [bind].
  rewrite <- (map_map (exact_size dimensions total gutter size viewport tf)
                      Some).
  rewrite <- (map_map (exact_size dimensions total gutter size viewport
                                  (total_weight dimensions)) Some).
  rewrite !results_of_resolved. f_equal.
  apply layout_ext.
  apply Forall2_map_both. intros scalar.
  unfold exact_size. destruct (is_fraction scalar); [|reflexivity].
  rewrite Hexact. reflexivity.
Qed.

Lemma resolve_refines_exact_example :
  resolve [Cells f3; Flex f1; Flex f3] 20 1 size_40_20 size_40_20
  = resolve_exact [Cells f3; Flex f1; Flex f3] 20 1 size_40_20 size_40_20.
Proof.
  apply (resolve_refines_exact [Cells f3; Flex f1; Flex f3] 20 1
                               size_40_20 size_40_20
                               (get 0%Q (from_float (PyFloat.sum [f1; f3])))).
  - reflexivity.
  - vm_compute. reflexivity.
Defined.

(** * Further properties of [resolve] *)

(** ** When [resolve] returns *)

(** X2. [resolve] returns a result list exactly when every concrete scalar
    resolves and the float sum of the flex weights converts to a fraction
    that is not zero unless there is no flex track; in every other case it
    raises. *)
Theorem resolve_returns_iff (dimensions : list Scalar) (total gutter : Z)
        (size viewport : Size) :
  (exists results,
      resolve dimensions total gutter size viewport = Ok results)
  <-> (Forall (resolvable size viewport) dimensions
       /\ exists tf,
           from_float (PyFloat.sum (weights dimensions)) = Ok tf
           /\ (truthy tf = true \/ no_fraction dimensions)).
Proof.
  split.
  - intros [results H]. apply resolve_inv in H.
    destruct H as [tf [Hres [Htf [Hbranch _]]]].
    split; [exact Hres|]. exists tf. split; assumption.
  - intros [Hres [tf [Htf Hbranch]]]. eexists.
    apply (resolve_ok _ _ _ _ _ tf Hres Htf Hbranch).
Qed.

(** X3. The result is empty exactly when there is no dimension. *)
Theorem resolve_empty_iff (dimensions : list Scalar) (total gutter : Z)
        (size viewport : Size) :
  resolve dimensions total gutter size viewport = Ok [] <-> dimensions = [].
Proof.
  split.
  - intros H. apply resolve_inv in H.
    destruct H as [tf [_ [_ [_ H]]]].
    apply (f_equal (@length _)) in H.
    rewrite layout_length, length_map in H.
    destruct dimensions; [reflexivity|discriminate].
  - intros ->. reflexivity.
Qed.

(** ** A single flex track *)

Lemma sum_singleton (s : bool) (m : positive) (e : Z) :
  PyFloat.sum [S754_finite s m e] = S754_finite s m e.
Proof. reflexivity. Qed.

Lemma Qfloor_max_fraction (z : Z) :
  Qfloor (max_fraction 0 (inject_Z z)) = Z.max 0 z.
Proof.
  unfold max_fraction. destruct (Qle_bool (inject_Z z) 0) eqn:E.
  - apply Qle_bool_iff in E. change 0%Q with (inject_Z 0) in E.
    rewrite <- Zle_Qle in E.
    replace (Qfloor 0) with 0 by reflexivity. lia.
  - assert (H : ~ z <= 0).
    { intros H. rewrite Zle_Qle in H. apply Qle_bool_iff in H.
      change (inject_Z 0) with 0%Q in H. congruence. }
    rewrite Qfloor_Z. lia.
Qed.

Lemma max_fraction_comp (q q' : Q) :
  (q == q')%Q -> (max_fraction 0 q == max_fraction 0 q')%Q.
Proof.
  intros E. unfold max_fraction.
  destruct (Qle_bool q 0) eqn:H, (Qle_bool q' 0) eqn:H'; try reflexivity;
    try exact E.
  - apply Qle_bool_iff in H. rewrite E in H. apply Qle_bool_iff in H.
    congruence.
  - apply Qle_bool_iff in H'. rewrite <- E in H'. apply Qle_bool_iff in H'.
    congruence.
Qed.

(** X4. A single flex track of any finite weight other than zero takes the
    whole total and starts at 0, whatever the gutter: no gutter is applied
    to a single track.  A negative total is clamped to the length 0. *)
Theorem resolve_single_flex (s : bool) (m : positive) (e : Z)
        (total gutter : Z) (size viewport : Size) :
  resolve [Flex (S754_finite s m e)] total gutter size viewport
  = Ok [(0, Z.max 0 total)].
Proof.
  rewrite (resolve_ok [Flex (S754_finite s m e)] total gutter size viewport
                      (ratio s m e)).
  - cbn [map layout]. unfold exact_size. cbn [is_fraction].
    unfold weight. cbn [value from_float get].
    set (r := remaining [Flex (S754_finite s m e)] total gutter size
                        viewport).
    assert (Hr : r = max_fraction 0 (inject_Z (total - gutter * (1 - 1))
                                     - 0)%Q) by reflexivity.
    assert (E : (0 + ratio s m e * (r / ratio s m e)
                 == max_fraction 0 (inject_Z total))%Q).
    { transitivity r.
      - field. apply truthy_spec, truthy_ratio.
      - rewrite Hr. apply max_fraction_comp.
        rewrite Z.sub_diag, Z.mul_0_r, Z.sub_0_r. ring. }
    rewrite (Qfloor_comp _ _ E), Qfloor_max_fraction.
    replace (Qfloor 0) with 0 by reflexivity. do 3 f_equal. lia.
  - all_resolvable.
  - reflexivity.
  - left. apply truthy_ratio.
Qed.

(** ** What [total] changes *)

Lemma no_fraction_forallb (dims : list Scalar) :
  forallb (fun scalar => negb (is_fraction scalar)) dims = true ->
  no_fraction dims.
Proof.
  intros H. apply Forall_forall. intros scalar Hin.
  rewrite forallb_forall in H. apply negb_true_iff, H, Hin.
Qed.

(** X5. With no flex track [total] is not used: [resolve] returns, or
    raises, the same for every total. *)
Theorem resolve_ignores_total_without_flex (dimensions : list Scalar)
        (total total' gutter : Z) (size viewport : Size) :
  forallb (fun scalar => negb (is_fraction scalar)) dimensions = true ->
  resolve dimensions total gutter size viewport
  = resolve dimensions total' gutter size viewport.
Proof.
  intros Hno. apply no_fraction_forallb in Hno.
  unfold resolve, resolve_fractions.
  destruct (resolve_scalars dimensions size viewport)
    as [resolved|e] eqn:Escalars; [|reflexivity].
  destruct (resolve_scalars_inv _ _ _ _ Escalars) as [_ ->].
  cbn [bind]. rewrite total_fraction_of_entries.
  destruct (from_float (PyFloat.sum (weights dimensions)))
    as [tf|e] eqn:Etf; [|reflexivity].
  cbn [bind]. unfold resolved_fractions_of.
  rewrite (truthy_zero_no_fraction tf dimensions Hno Etf). reflexivity.
Qed.

Lemma resolve_ignores_total_without_flex_witness :
  resolve [Cells f25; Cells f3] 20 1 size_40_20 size_40_20
  = resolve [Cells f25; Cells f3] 1000 1 size_40_20 size_40_20.
Proof.
  apply (resolve_ignores_total_without_flex [Cells f25; Cells f3] 20 1000 1
                                            size_40_20 size_40_20).
  reflexivity.
Defined.

(** X6. Once the concrete sizes and the gutters use up [total], a smaller
    or larger total that they still use up changes nothing: the remainder
    is clamped to the same zero. *)
Theorem resolve_overflow_ignores_total (dimensions : list Scalar)
        (total total' gutter : Z) (size viewport : Size) :
  (inject_Z total
   <= consumed dimensions size viewport
      + inject_Z (gutter * (Z.of_nat (length dimensions) - 1)))%Q ->
  (inject_Z total'
   <= consumed dimensions size viewport
      + inject_Z (gutter * (Z.of_nat (length dimensions) - 1)))%Q ->
  resolve dimensions total gutter size viewport
  = resolve dimensions total' gutter size viewport.
Proof.
  intros Hover Hover'. unfold resolve, resolve_fractions.
  destruct (resolve_scalars dimensions size viewport)
    as [resolved|e] eqn:Escalars; [|reflexivity].
  destruct (resolve_scalars_inv _ _ _ _ Escalars) as [_ ->].
  cbn [bind].
  destruct (total_fraction_of (map (entry_of size viewport) dimensions))
    as [tf|e]; [|reflexivity].
  cbn [bind]. unfold resolved_fractions_of.
  destruct (truthy tf); [|reflexivity].
  rewrite consumed_of_entries.
  rewrite !max_fraction_clamped; [reflexivity| |].
  - unfold Z.sub in *. rewrite inject_Z_plus, inject_Z_opp. lra.
  - unfold Z.sub in *. rewrite inject_Z_plus, inject_Z_opp. lra.
Qed.

Lemma resolve_overflow_ignores_total_witness :
  resolve [Cells f25; Flex f1] 20 1 size_40_20 size_40_20
  = resolve [Cells f25; Flex f1] 26 1 size_40_20 size_40_20.
Proof.
  apply (resolve_overflow_ignores_total [Cells f25; Flex f1] 20 26 1
                                        size_40_20 size_40_20);
    vm_compute; discriminate.
Defined.

(** ** Rounding does not accumulate *)

(** X7. The lengths add up to the floor of the sum of the exact sizes of
    the tracks: the rounding of the individual tracks does not add up, the
    total error stays below one cell. *)
Theorem resolve_no_drift (dimensions : list Scalar) (total gutter : Z)
        (size viewport : Size) (fs : list Q) (results : list (Z * Z)) :
  resolve_fractions dimensions total gutter size viewport
  = Ok (map Some fs) ->
  resolve dimensions total gutter size viewport = Ok results ->
  fold_right Z.add 0 (map snd results)
  = Qfloor (fold_right Qplus 0%Q fs).
Proof.
  intros Hrf H. unfold resolve in H. rewrite Hrf in H. cbn [bind] in H.
  rewrite results_of_resolved in H.
  assert (Hres : results = layout gutter 0 fs) by congruence.
  subst results.
  pose proof (layout_telescope gutter fs 0%Q) as Htel.
  replace (Qfloor 0) with 0 in Htel by reflexivity.
  assert (E : (0 + fold_right Qplus 0 fs
               + inject_Z (gutter * Z.of_nat (length fs))
               == fold_right Qplus 0 fs
                  + inject_Z (gutter * Z.of_nat (length fs)))%Q) by ring.
  rewrite (Qfloor_comp _ _ E), Qfloor_plus_Z in Htel. lia.
Qed.

Lemma resolve_no_drift_witness :
  fold_right Z.add 0 (map snd [(0, 6); (7, 7); (15, 7)])
  = Qfloor (fold_right Qplus 0%Q [20 # 3; 20 # 3; 20 # 3]%Q).
Proof.
  pose (dimensions := [Flex f1; Flex f1; Flex f1]).
  pose (f := exact_size dimensions 22 1 size_40_20 size_40_20
                        (get 0%Q (from_float (PyFloat.sum
                                                (weights dimensions))))
                        (Flex f1)).
  apply (resolve_no_drift dimensions 22 1 size_40_20 size_40_20 [f; f; f]).
  - vm_compute. reflexivity.
  - vm_compute. reflexivity.
Defined.

(** ** Filling the axis *)

Lemma exact_sizes_sum (dimensions : list Scalar) (total gutter : Z)
      (size viewport : Size) (tf : Q) (dims : list Scalar) :
  (fold_right Qplus 0
              (map (exact_size dimensions total gutter size viewport tf)
                   dims)
   == fold_right Qplus 0 (map weight (filter is_fraction dims))
      * (remaining dimensions total gutter size viewport / tf)
      + fold_right Qplus 0
                   (map (concrete_size size viewport)
                        (filter (fun scalar => negb (is_fraction scalar))
                                dims)))%Q.
Proof.
  induction dims as [|scalar dims IH]; cbn [map filter fold_right].
  - ring.
  - unfold exact_size at 1.
    destruct (is_fraction scalar); cbn [negb map fold_right];
      rewrite IH; ring.
Qed.

(** X8. When the float sum of the flex weights is exact and not zero, and
    the concrete sizes and the gutters fit in [total], the tracks fill the
    axis: the lengths and the gutters between them add up to [total], also
    when concrete sizes are not whole numbers. *)
Theorem resolve_fills_total (dimensions : list Scalar) (total gutter : Z)
        (size viewport : Size) (tf : Q) :
  Forall (resolvable size viewport) dimensions ->
  from_float (PyFloat.sum (weights dimensions)) = Ok tf ->
  truthy tf = true ->
  (tf == total_weight dimensions)%Q ->
  (consumed dimensions size viewport
   + inject_Z (gutter * (Z.of_nat (length dimensions) - 1))
   <= inject_Z total)%Q ->
  exists results,
    resolve dimensions total gutter size viewport = Ok results
    /\ fold_right Z.add 0 (map snd results)
       + gutter * (Z.of_nat (length dimensions) - 1) = total.
Proof.
  intros Hres Htf Ht Hexact Hfit.
  eexists. split; [apply (resolve_ok _ _ _ _ _ tf Hres Htf); left; exact Ht|].
  pose proof (layout_telescope
                gutter
                (map (exact_size dimensions total gutter size viewport tf)
                     dimensions) 0%Q) as Htel.
  rewrite length_map in Htel.
  replace (Qfloor 0) with 0 in Htel by reflexivity.
  set (n := Z.of_nat (length dimensions)) in *.
  assert (Hsizes :
            (fold_right Qplus 0
                        (map (exact_size dimensions total gutter size
                                         viewport tf) dimensions)
             == inject_Z (total - gutter * (n - 1)))%Q).
  { rewrite exact_sizes_sum.
    assert (Hw : (fold_right Qplus 0
                             (map weight (filter is_fraction dimensions))
                  == tf)%Q).
    { rewrite Hexact. unfold total_weight.
      rewrite sum_fractions_fold_right. reflexivity. }
    assert (Hc : (fold_right Qplus 0
                             (map (concrete_size size viewport)
                                  (filter (fun scalar =>
                                             negb (is_fraction scalar))
                                          dimensions))
                  == consumed dimensions size viewport)%Q).
    { unfold consumed. rewrite sum_fractions_fold_right. reflexivity. }
    rewrite Hw, Hc. unfold remaining. fold n.
    rewrite max_fraction_id.
    - apply truthy_spec in Ht. field. exact Ht.
    - unfold Z.sub in *. rewrite inject_Z_plus, inject_Z_opp. lra. }
  assert (Hfloor :
            Qfloor (0 + fold_right Qplus 0
                          (map (exact_size dimensions total gutter size
                                           viewport tf) dimensions)
                    + inject_Z (gutter * n))%Q = total + gutter).
  { rewrite <- (Qfloor_Z (total + gutter)). apply Qfloor_comp.
    replace (total + gutter)
      with ((total - gutter * (n - 1)) + gutter * n) by lia.
    rewrite inject_Z_plus, Hsizes. ring. }
  rewrite Hfloor in Htel. lia.
Qed.

Lemma resolve_fills_total_witness :
  exists results,
    resolve [Cells f2_5; Flex f1; Cells f2_5; Flex f3] 21 1
            size_40_20 size_40_20 = Ok results
    /\ fold_right Z.add 0 (map snd results) + 1 * (4 - 1) = 21.
Proof.
  apply (resolve_fills_total [Cells f2_5; Flex f1; Cells f2_5; Flex f3] 21 1
                             size_40_20 size_40_20
                             (get 0%Q (from_float (PyFloat.sum [f1; f3])))).
  - all_resolvable.
  - reflexivity.
  - reflexivity.
  - vm_compute. reflexivity.
  - vm_compute. discriminate.
Defined.

(** ** Single tracks *)

Lemma rounds_floor_or_next (f : Q) (entry : Z * Z) :
  rounds f entry -> Qfloor f <= snd entry <= Qfloor f + 1.
Proof.
  intros [x ->].
  pose proof (Qfloor_le x) as H1. pose proof (Qlt_floor x) as H2.
  pose proof (Qfloor_le f) as H3. pose proof (Qlt_floor f) as H4.
  pose proof (Qfloor_le (x + f)) as H5.
  pose proof (Qlt_floor (x + f)) as H6.
  rewrite inject_Z_plus in H2, H4, H6.
  replace (inject_Z 1) with 1%Q in H2, H4, H6 by reflexivity.
  assert (L : Qfloor x + Qfloor f < Qfloor (x + f) + 1).
  { rewrite Zlt_Qlt, !inject_Z_plus.
    replace (inject_Z 1) with 1%Q by reflexivity. lra. }
  assert (U : Qfloor (x + f) < Qfloor x + Qfloor f + 2).
  { rewrite Zlt_Qlt, !inject_Z_plus.
    replace (inject_Z 2) with 2%Q by reflexivity. lra. }
  lia.
Qed.

(** X9. Every length is the floor of the exact size of its track, or one
    cell more. *)
Theorem resolve_floor_or_next (dimensions : list Scalar) (total gutter : Z)
        (size viewport : Size) (fs : list Q) (results : list (Z * Z)) :
  resolve_fractions dimensions total gutter size viewport
  = Ok (map Some fs) ->
  resolve dimensions total gutter size viewport = Ok results ->
  Forall2 (fun f entry => snd entry = Qfloor f \/ snd entry = Qfloor f + 1)
          fs results.
Proof.
  intros Hrf H. unfold resolve in H. rewrite Hrf in H. cbn [bind] in H.
  rewrite results_of_resolved in H.
  assert (Hres : results = layout gutter 0 fs) by congruence.
  subst results.
  eapply Forall2_impl; [|apply layout_rounds].
  intros f entry Hr. apply rounds_floor_or_next in Hr. lia.
Qed.

Lemma resolve_floor_or_next_witness :
  Forall2 (fun f entry => snd entry = Qfloor f \/ snd entry = Qfloor f + 1)
          (map (exact_size [Flex f1; Flex f1; Flex f1] 22 1
                           size_40_20 size_40_20
                           (get 0%Q (from_float (PyFloat.sum [f1; f1; f1]))))
               [Flex f1; Flex f1; Flex f1])
          [(0, 6); (7, 7); (15, 7)].
Proof.
  apply (resolve_floor_or_next [Flex f1; Flex f1; Flex f1] 22 1
                               size_40_20 size_40_20).
  - vm_compute. reflexivity.
  - vm_compute. reflexivity.
Defined.

Lemma resolve_rounds (dimensions : list Scalar) (total gutter : Z)
      (size viewport : Size) (results : list (Z * Z)) :
  resolve dimensions total gutter size viewport = Ok results ->
  exists tf,
    from_float (PyFloat.sum (weights dimensions)) = Ok tf
    /\ Forall (resolvable size viewport) dimensions
    /\ (truthy tf = true \/ no_fraction dimensions)
    /\ Forall2 (fun scalar entry =>
                  rounds (exact_size dimensions total gutter size viewport
                                     tf scalar) entry)
               dimensions results.
Proof.
  intros H. apply resolve_inv in H.
  destruct H as [tf [Hres [Htf [Hbranch ->]]]].
  exists tf. repeat split; try assumption.
  apply layout_Forall2. intros scalar entry _ Hr. exact Hr.
Qed.

(** X10. Two tracks that ask for the same scalar get lengths that differ
    by at most one cell, wherever they are in the list. *)
Theorem resolve_equal_scalars_within_one
        (dimensions : list Scalar) (total gutter : Z) (size viewport : Size)
        (results : list (Z * Z)) (i j : nat) (scalar : Scalar)
        (e1 e2 : Z * Z) :
  resolve dimensions total gutter size viewport = Ok results ->
  nth_error dimensions i = Some scalar -> nth_error results i = Some e1 ->
  nth_error dimensions j = Some scalar -> nth_error results j = Some e2 ->
  Z.abs (snd e1 - snd e2) <= 1.
Proof.
  intros H Hi He1 Hj He2. apply resolve_rounds in H.
  destruct H as [tf [_ [_ [_ Hall]]]].
  pose proof (Forall2_nth_error _ _ _ Hall i _ _ Hi He1) as R1.
  pose proof (Forall2_nth_error _ _ _ Hall j _ _ Hj He2) as R2.
  apply rounds_floor_or_next in R1, R2. lia.
Qed.

Lemma resolve_equal_scalars_within_one_witness : Z.abs (6 - 7) <= 1.
Proof.
  apply (resolve_equal_scalars_within_one
           [Flex f1; Flex f1; Flex f1] 22 1 size_40_20 size_40_20
           [(0, 6); (7, 7); (15, 7)] 0 2 (Flex f1) (0, 6) (15, 7));
    reflexivity.
Defined.

(** X11. A flex track whose weight is zero gets the length 0 whenever
    [resolve] returns, that is whenever the other weights make the sum
    differ from zero. *)
Theorem resolve_zero_weight_track
        (dimensions : list Scalar) (total gutter : Z) (size viewport : Size)
        (results : list (Z * Z)) (i : nat) (sign : bool) (entry : Z * Z) :
  resolve dimensions total gutter size viewport = Ok results ->
  nth_error dimensions i = Some (Flex (S754_zero sign)) ->
  nth_error results i = Some entry ->
  snd entry = 0.
Proof.
  intros H Hi He. apply resolve_rounds in H.
  destruct H as [tf [_ [_ [_ Hall]]]].
  pose proof (Forall2_nth_error _ _ _ Hall i _ _ Hi He) as R.
  apply (rounds_zero _ _ R). unfold exact_size, weight.
  cbn [is_fraction value from_float get]. unfold Qdiv. ring.
Qed.

Lemma resolve_zero_weight_track_witness : snd (6, 0) = 0.
Proof.
  apply (resolve_zero_weight_track
           [Flex f1; Flex f0; Flex f3] 22 1 size_40_20 size_40_20
           [(0, 5); (6, 0); (7, 15)] 1 false (6, 0));
    reflexivity.
Defined.

(** X12. A concrete track is never resized by the flex tracks or clamped to
    [total]: in every list, its length is its resolved size rounded by the
    floors, and that size exactly when it is a whole number of cells. *)
Theorem resolve_keeps_concrete (dimensions : list Scalar) (total gutter : Z)
        (size viewport : Size) (results : list (Z * Z)) :
  resolve dimensions total gutter size viewport = Ok results ->
  Forall2 (fun scalar entry =>
             is_fraction scalar = false ->
             exists c, resolve_dimension scalar size viewport = Ok c
                       /\ kept c entry)
          dimensions results.
Proof.
  intros H. apply resolve_inv in H.
  destruct H as [tf [Hres [_ [_ ->]]]].
  apply layout_Forall2. intros scalar entry Hin Hr Hfr.
  exists (concrete_size size viewport scalar). split.
  - apply concrete_size_resolved; [|exact Hfr].
    rewrite Forall_forall in Hres. apply Hres, Hin.
  - apply rounds_kept. unfold exact_size in Hr. rewrite Hfr in Hr. exact Hr.
Qed.

Lemma resolve_keeps_concrete_witness :
  Forall2 (fun scalar entry =>
             is_fraction scalar = false ->
             exists c, resolve_dimension scalar size_40_20 size_40_20 = Ok c
                       /\ kept c entry)
          [Cells f3; Flex f1; Cells f1] [(0, 3); (4, 14); (19, 1)].
Proof.
  apply (resolve_keeps_concrete [Cells f3; Flex f1; Cells f1] 20 1
                                size_40_20 size_40_20).
  vm_compute. reflexivity.
Defined.

(** X13. In every list, the lengths of two flex tracks are in the ratio of
    their weights up to the rounding of each: cross multiplied, they differ
    by at most the sum of the absolute values of the two weights. *)
Theorem resolve_flex_tracks_proportional
        (dimensions : list Scalar) (total gutter : Z) (size viewport : Size)
        (results : list (Z * Z)) (i j : nat) (s1 s2 : Scalar)
        (e1 e2 : Z * Z) :
  resolve dimensions total gutter size viewport = Ok results ->
  nth_error dimensions i = Some s1 -> nth_error results i = Some e1 ->
  nth_error dimensions j = Some s2 -> nth_error results j = Some e2 ->
  is_fraction s1 = true -> is_fraction s2 = true ->
  (Qabs (inject_Z (snd e1) * weight s2 - inject_Z (snd e2) * weight s1)
   <= Qabs (weight s1) + Qabs (weight s2))%Q.
Proof.
  intros H Hs1 He1 Hs2 He2 F1 F2. apply resolve_rounds in H.
  destruct H as [tf [_ [_ [_ Hall]]]].
  pose proof (Forall2_nth_error _ _ _ Hall i _ _ Hs1 He1) as R1.
  pose proof (Forall2_nth_error _ _ _ Hall j _ _ Hs2 He2) as R2.
  unfold exact_size in R1, R2. rewrite F1 in R1. rewrite F2 in R2.
  apply rounds_within_one in R1, R2.
  destruct R1 as [R1 R1'], R2 as [R2 R2'].
  apply (cross_ratio_bound
           _ _ _ _ (remaining dimensions total gutter size viewport / tf)%Q);
    assumption.
Qed.

Lemma resolve_flex_tracks_proportional_witness :
  (Qabs (inject_Z 3 * weight (Flex f3) - inject_Z 12 * weight (Flex f1))
   <= Qabs (weight (Flex f1)) + Qabs (weight (Flex f3)))%Q.
Proof.
  apply (resolve_flex_tracks_proportional
           [Flex f1; Cells f3; Flex f3] 20 1 size_40_20 size_40_20
           [(0, 3); (4, 3); (8, 12)] 0 2 (Flex f1) (Flex f3) (0, 3) (8, 12));
    reflexivity.
Defined.

(** ** The exceptions [resolve] raises *)

Lemma from_float_raises (f : float) (e : exn) :
  from_float f = Raise e -> conversion_error e.
Proof.
  destruct f; cbn; intros H; try discriminate; injection H as <-;
    [left|right]; reflexivity.
Qed.

Lemma resolve_scalars_raises (size viewport : Size) (dims : list Scalar)
      (e : exn) :
  resolve_scalars dims size viewport = Raise e -> conversion_error e.
Proof.
  unfold resolve_scalars.
  induction dims as [|scalar dims IH]; cbn [comprehension]; [discriminate|].
  destruct scalar as [n|p ref|w]; cbn [is_fraction resolve_dimension bind].
  - destruct (from_float n) as [q|e'] eqn:E; cbn [bind].
    + destruct (comprehension _ dims) as [rest|e'];
        cbn [bind]; [discriminate|].
      intros H. injection H as <-. apply IH. reflexivity.
    + intros H. injection H as <-. eapply from_float_raises, E.
  - destruct (from_float p) as [q|e'] eqn:E; cbn [bind].
    + destruct (comprehension _ dims) as [rest|e'];
        cbn [bind]; [discriminate|].
      intros H. injection H as <-. apply IH. reflexivity.
    + intros H. injection H as <-. eapply from_float_raises, E.
  - destruct (comprehension _ dims) as [rest|e'];
      cbn [bind]; [discriminate|].
    intros H. injection H as <-. apply IH. reflexivity.
Qed.

Lemma results_of_first_None (gutter : Z) (rf : list (option Q)) :
  results_of (None :: rf) gutter = Raise AttributeError.
Proof. reflexivity. Qed.

Lemma results_of_later_None (gutter : Z) (f : Q) (rf : list (option Q)) :
  In None rf -> results_of (Some f :: rf) gutter = Raise TypeError.
Proof.
  intros Hin. unfold results_of.
  cbn [flat_map app accumulate_floor accumulate_from].
  rewrite (accumulate_from_None _ _ _ Hin). reflexivity.
Qed.

Lemma existsb_no_fraction (dims : list Scalar) :
  existsb is_fraction dims = false -> no_fraction dims.
Proof.
  induction dims as [|scalar dims IH]; cbn [existsb]; intros H;
    [constructor|].
  apply orb_false_iff in H. destruct H as [Hs Hdims].
  constructor; [exact Hs|apply IH, Hdims].
Qed.

(** The four outcomes of [resolve] and the inputs that lead to each. *)
Lemma resolve_outcome (dimensions : list Scalar) (total gutter : Z)
      (size viewport : Size) :
  (exists results, resolve dimensions total gutter size viewport = Ok results)
  \/ (exists e,
         resolve dimensions total gutter size viewport = Raise e
         /\ conversion_error e
         /\ (~ Forall (resolvable size viewport) dimensions
             \/ ~ finite (PyFloat.sum (weights dimensions))))
  \/ (resolve dimensions total gutter size viewport = Raise AttributeError
      /\ zero_total_fraction size viewport dimensions
      /\ first_is_fraction dimensions = true)
  \/ (resolve dimensions total gutter size viewport = Raise TypeError
      /\ zero_total_fraction size viewport dimensions
      /\ first_is_fraction dimensions = false
      /\ existsb is_fraction dimensions = true).
Proof.
  unfold resolve, resolve_fractions.
  destruct (resolve_scalars dimensions size viewport)
    as [resolved|e] eqn:Escalars.
  - destruct (resolve_scalars_inv _ _ _ _ Escalars) as [Hres ->].
    cbn [bind]. rewrite total_fraction_of_entries.
    destruct (from_float (PyFloat.sum (weights dimensions)))
      as [tf|e] eqn:Etf; cbn [bind].
    + destruct (truthy tf) eqn:Ht.
      * left. eexists.
        pose proof (resolve_ok dimensions total gutter size viewport tf
                               Hres Etf (or_introl Ht)) as Hok.
        unfold resolve, resolve_fractions in Hok.
        rewrite Escalars in Hok. cbn [bind] in Hok.
        rewrite total_fraction_of_entries, Etf in Hok. exact Hok.
      * unfold resolved_fractions_of. rewrite Ht. cbn [bind].
        assert (Hzero : zero_total_fraction size viewport dimensions).
        { split; [exact Hres|]. exists tf. split; assumption. }
        destruct dimensions as [|scalar dims].
        -- left. eexists. reflexivity.
        -- cbn [map first_is_fraction existsb].
           change (snd (entry_of size viewport scalar))
             with (if is_fraction scalar then None
                   else Some (concrete_size size viewport scalar)).
           destruct (is_fraction scalar) eqn:Efr; cbv iota.
           ++ right. right. left. rewrite results_of_first_None.
              split; [reflexivity|]. split; [exact Hzero|reflexivity].
           ++ cbn [orb]. destruct (existsb is_fraction dims) eqn:Eex.
              ** right. right. right.
                 rewrite results_of_later_None
                   by (apply entries_fraction_None, Eex).
                 split; [reflexivity|].
                 split; [exact Hzero|]. split; reflexivity.
              ** left. apply existsb_no_fraction in Eex.
                 rewrite (entries_no_fraction _ _ _ Eex).
                 change (Some (concrete_size size viewport scalar)
                           :: map Some (map (concrete_size size viewport)
                                            dims))
                   with (map Some (concrete_size size viewport scalar
                                     :: map (concrete_size size viewport)
                                            dims)).
                 rewrite results_of_resolved. eexists. reflexivity.
    + right. left. exists e. split; [reflexivity|].
      split; [eapply from_float_raises, Etf|].
      right. intros [q Hq]. congruence.
  - right. left. exists e. cbn [bind]. split; [reflexivity|].
    split; [eapply resolve_scalars_raises, Escalars|].
    left. intros Hres.
    rewrite (resolve_scalars_ok _ _ _ Hres) in Escalars. discriminate.
Qed.

Lemma zero_total_fraction_not_ok (dimensions : list Scalar)
      (total gutter : Z) (size viewport : Size) (results : list (Z * Z)) :
  zero_total_fraction size viewport dimensions ->
  existsb is_fraction dimensions = true ->
  resolve dimensions total gutter size viewport <> Ok results.
Proof.
  intros [_ [tf [Htf Ht]]] Hex H. apply resolve_inv in H.
  destruct H as [tf' [_ [Htf' [Hbranch _]]]].
  assert (tf' = tf) by congruence. subst tf'.
  destruct Hbranch as [Ht'|Hno]; [congruence|].
  apply no_fraction_existsb in Hno. congruence.
Qed.

Lemma first_is_fraction_existsb (dims : list Scalar) :
  first_is_fraction dims = true -> existsb is_fraction dims = true.
Proof.
  destruct dims as [|scalar dims]; cbn; [discriminate|].
  intros ->. reflexivity.
Qed.

Lemma zero_total_fraction_finite (size viewport : Size)
      (dims : list Scalar) :
  zero_total_fraction size viewport dims ->
  ~ (~ Forall (resolvable size viewport) dims
     \/ ~ finite (PyFloat.sum (weights dims))).
Proof.
  intros [Hres [tf [Htf _]]] [H|H]; apply H; [exact Hres|].
  exists tf. exact Htf.
Qed.

(** X14. [resolve] never calls [resolve_dimension] on a fraction: whatever
    the input, it does not raise [ScalarResolveError]. *)
Theorem resolve_never_resolves_fraction (dimensions : list Scalar)
        (total gutter : Z) (size viewport : Size) :
  resolve dimensions total gutter size viewport <> Raise ScalarResolveError.
Proof.
  intros H.
  destruct (resolve_outcome dimensions total gutter size viewport)
    as [[results Hok]|[[e [He [[Hc|Hc] _]]]|[[He _]|[He _]]]];
    congruence.
Qed.

(** X15. The failures on [None].  [resolve] raises [AttributeError] exactly
    when [total_fraction] is zero and the first dimension is a fraction, and
    [TypeError] exactly when [total_fraction] is zero, the first dimension
    is not a fraction and a later one is. *)
Theorem resolve_none_errors_iff (dimensions : list Scalar)
        (total gutter : Z) (size viewport : Size) :
  (resolve dimensions total gutter size viewport = Raise AttributeError
   <-> zero_total_fraction size viewport dimensions
       /\ first_is_fraction dimensions = true)
  /\ (resolve dimensions total gutter size viewport = Raise TypeError
      <-> zero_total_fraction size viewport dimensions
          /\ first_is_fraction dimensions = false
          /\ existsb is_fraction dimensions = true).
Proof.
  pose proof (resolve_outcome dimensions total gutter size viewport) as Hout.
  split; split.
  - intros H.
    destruct Hout
      as [[results Hok]|[[e [He [[Hc|Hc] _]]]|[[He Hrest]|[He _]]]];
      congruence.
  - intros [Hzero Hfirst].
    destruct Hout
      as [[results Hok]|[[e [He [_ Hnot]]]|[[He _]|[He [_ [Hf _]]]]]].
    + exfalso. eapply zero_total_fraction_not_ok; try eassumption.
      apply first_is_fraction_existsb, Hfirst.
    + exfalso. eapply zero_total_fraction_finite; eassumption.
    + exact He.
    + congruence.
  - intros H.
    destruct Hout
      as [[results Hok]|[[e [He [[Hc|Hc] _]]]|[[He _]|[He Hrest]]]];
      congruence.
  - intros [Hzero [Hfirst Hex]].
    destruct Hout
      as [[results Hok]|[[e [He [_ Hnot]]]|[[He [_ Hf]]|[He _]]]].
    + exfalso. eapply zero_total_fraction_not_ok; eassumption.
    + exfalso. eapply zero_total_fraction_finite; eassumption.
    + congruence.
    + exact He.
Qed.

(** X16. The failures of the conversions.  [resolve] raises [OverflowError]
    or [ValueError] exactly when a concrete scalar does not resolve or the
    float sum of the flex weights is an infinity or NaN; a sum of finite
    weights that overflows is such a case. *)
Theorem resolve_conversion_errors_iff (dimensions : list Scalar)
        (total gutter : Z) (size viewport : Size) :
  ((exists e, resolve dimensions total gutter size viewport = Raise e
              /\ conversion_error e)
   <-> ~ Forall (resolvable size viewport) dimensions
       \/ ~ finite (PyFloat.sum (weights dimensions)))
  /\ resolve [Flex (S754_finite false 9007199254740991 971);
              Flex (S754_finite false 9007199254740991 971)]
             20 0 size_40_20 size_40_20
     = Raise OverflowError.
Proof.
  split; [|vm_compute; reflexivity].
  pose proof (resolve_outcome dimensions total gutter size viewport) as Hout.
  split.
  - intros [e [He [Hc|Hc]]]; subst e;
      destruct Hout
        as [[results Hok]|[[e' [He' [_ Hnot]]]|[[He' _]|[He' _]]]];
      try congruence; exact Hnot.
  - intros Hnot.
    destruct Hout
      as [[results Hok]|[[e [He [Hc _]]]|[[_ [Hzero _]]|[_ [Hzero _]]]]].
    + exfalso. apply resolve_inv in Hok.
      destruct Hok as [tf [Hres [Htf _]]].
      destruct Hnot as [H|H]; apply H; [exact Hres|].
      exists tf. exact Htf.
    + exists e. split; assumption.
    + exfalso. eapply zero_total_fraction_finite; eassumption.
    + exfalso. eapply zero_total_fraction_finite; eassumption.
Qed.

(** ** What the gutter changes *)

Lemma layout_shift (gutter d : Z) (fs : list Q) :
  forall running k,
    layout (gutter + d) (running + inject_Z (k * d))%Q fs
    = shift_offsets d k (layout gutter running fs).
Proof.
  induction fs as [|f fs IH]; intros running k; [reflexivity|].
  cbn [layout shift_offsets].
  assert (E1 : (running + inject_Z (k * d) + f
                == (running + f) + inject_Z (k * d))%Q) by ring.
  assert (E2 : (running + inject_Z (k * d) + f + inject_Z (gutter + d)
                == (running + f + inject_Z gutter)
                   + inject_Z ((k + 1) * d))%Q).
  { rewrite Z.mul_add_distr_r, Z.mul_1_l, !inject_Z_plus. ring. }
  rewrite (Qfloor_comp _ _ E1), !Qfloor_plus_Z.
  rewrite (layout_comp (gutter + d) fs _ _ E2), IH.
  f_equal. f_equal. lia.
Qed.

Lemma remaining_shift (dimensions : list Scalar) (total gutter d : Z)
      (size viewport : Size) :
  remaining dimensions (total + d * (Z.of_nat (length dimensions) - 1))
            (gutter + d) size viewport
  = remaining dimensions total gutter size viewport.
Proof.
  unfold remaining. do 3 f_equal. lia.
Qed.

(** X17. Widening the gutter by [d] and the total by [d] for each of the
    gaps between the tracks keeps every length and moves the offset of the
    track at position [i] by [i * d]: the gutter only shifts the tracks. *)
Theorem resolve_gutter_shifts (dimensions : list Scalar)
        (total gutter d : Z) (size viewport : Size)
        (results : list (Z * Z)) :
  resolve dimensions total gutter size viewport = Ok results ->
  resolve dimensions (total + d * (Z.of_nat (length dimensions) - 1))
          (gutter + d) size viewport
  = Ok (shift_offsets d 0 results).
Proof.
  intros H. apply resolve_inv in H.
  destruct H as [tf [Hres [Htf [Hbranch ->]]]].
  rewrite (resolve_ok _ _ _ _ _ tf Hres Htf Hbranch). f_equal.
  assert (Esizes :
            map (exact_size dimensions
                            (total + d * (Z.of_nat (length dimensions) - 1))
                            (gutter + d) size viewport tf) dimensions
            = map (exact_size dimensions total gutter size viewport tf)
                  dimensions).
  { apply map_ext. intros scalar. unfold exact_size.
    rewrite remaining_shift. reflexivity. }
  rewrite Esizes, <- layout_shift. apply layout_comp.
  rewrite Z.mul_0_l. change (inject_Z 0) with 0%Q. ring.
Qed.

Lemma resolve_gutter_shifts_witness :
  resolve [Cells f3; Flex f1; Cells f1] (20 + 2 * (3 - 1)) (1 + 2)
          size_40_20 size_40_20
  = Ok [(0, 3); (6, 14); (23, 1)].
Proof.
  apply (resolve_gutter_shifts [Cells f3; Flex f1; Cells f1] 20 1 2
                               size_40_20 size_40_20
                               [(0, 3); (4, 14); (19, 1)]).
  vm_compute. reflexivity.
Defined.

(** ** Order of the tracks *)

Lemma layout_non_negative (gutter : Z) (fs : list Q) :
  0 <= gutter ->
  Forall (fun f => (0 <= f)%Q) fs ->
  forall running,
    (0 <= running)%Q ->
    Forall (fun entry => 0 <= fst entry /\ 0 <= snd entry)
           (layout gutter running fs).
Proof.
  intros Hg. induction 1 as [|f fs Hf _ IH]; intros running Hr;
    cbn [layout]; constructor.
  - cbn [fst snd]. split.
    + replace 0 with (Qfloor 0) by reflexivity.
      apply Qfloor_resp_le, Hr.
    + pose proof (Qfloor_plus_nonneg running f Hf). lia.
  - apply IH.
    assert (0 <= inject_Z gutter)%Q
      by (change 0%Q with (inject_Z 0); rewrite <- Zle_Qle; exact Hg).
    lra.
Qed.

(** X18. When no concrete size and no flex weight is negative and the
    gutter is not negative, the tracks are laid out from left to right
    without overlap: offsets and lengths are not negative, and a track ends
    at or before the offset of the next. *)
Theorem resolve_no_overlap (dimensions : list Scalar) (total gutter : Z)
        (size viewport : Size) (results : list (Z * Z)) :
  forallb (non_negative_request size viewport) dimensions = true ->
  0 <= gutter ->
  resolve dimensions total gutter size viewport = Ok results ->
  Forall (fun entry => 0 <= fst entry /\ 0 <= snd entry) results
  /\ (forall i o l o' l',
         nth_error results i = Some (o, l) ->
         nth_error results (S i) = Some (o', l') ->
         o + l <= o').
Proof.
  intros Hreq Hg H. apply resolve_inv in H.
  destruct H as [tf [_ [Htf [_ ->]]]].
  assert (Hpos : (0 <= tf)%Q).
  { eapply sum_non_negative; [|exact Htf].
    eapply weights_non_negative, Hreq. }
  split.
  - apply layout_non_negative; [exact Hg| |apply Qle_refl].
    apply Forall_forall. intros f Hin. apply in_map_iff in Hin.
    destruct Hin as [scalar [<- Hin]].
    apply exact_size_non_negative; [exact Hpos|].
    rewrite forallb_forall in Hreq. apply Hreq, Hin.
  - intros i o l o' l' Hi Hi'.
    pose proof (layout_consecutive _ _ _ _ _ _ _ _ Hi Hi'). lia.
Qed.

Lemma resolve_no_overlap_witness :
  Forall (fun entry => 0 <= fst entry /\ 0 <= snd entry)
         [(0, 25); (26, 0); (27, 3)]
  /\ (forall i o l o' l',
         nth_error [(0, 25); (26, 0); (27, 3)] i = Some (o, l) ->
         nth_error [(0, 25); (26, 0); (27, 3)] (S i) = Some (o', l') ->
         o + l <= o').
Proof.
  apply (resolve_no_overlap [Cells f25; Flex f1; Cells f3] 20 1
                            size_40_20 size_40_20).
  - reflexivity.
  - lia.
  - vm_compute. reflexivity.
Defined.

(** ** Growing the total *)

Lemma max_fraction_monotone (q q' : Q) :
  (q <= q')%Q -> (max_fraction 0 q <= max_fraction 0 q')%Q.
Proof.
  intros H. unfold max_fraction.
  destruct (Qle_bool q 0) eqn:E, (Qle_bool q' 0) eqn:E'.
  - apply Qle_refl.
  - destruct (Qlt_le_dec 0 q') as [Hlt|Hle]; [apply Qlt_le_weak, Hlt|].
    apply Qle_bool_iff in Hle. congruence.
  - apply Qle_bool_iff in E'. eapply Qle_trans; eassumption.
  - exact H.
Qed.

Lemma layout_monotone (gutter : Z) (fs fs' : list Q) :
  Forall2 Qle fs fs' ->
  forall running running',
    (running <= running')%Q ->
    Forall2 (fun entry entry' =>
               fst entry <= fst entry'
               /\ fst entry + snd entry <= fst entry' + snd entry')
            (layout gutter running fs) (layout gutter running' fs').
Proof.
  induction 1 as [|f f' fs fs' Hf _ IH]; intros running running' Hr;
    cbn [layout]; constructor.
  - cbn [fst snd]. split.
    + apply Qfloor_resp_le, Hr.
    + assert (Qfloor (running + f) <= Qfloor (running' + f'))
        by (apply Qfloor_resp_le; lra).
      lia.
  - apply IH. lra.
Qed.

Lemma Forall2_map_both_in {A B : Type} (R : B -> B -> Prop)
      (f g : A -> B) (l : list A) :
  (forall a, In a l -> R (f a) (g a)) -> Forall2 R (map f l) (map g l).
Proof.
  induction l as [|a l IH]; intros H; cbn [map]; constructor.
  - apply H. left. reflexivity.
  - apply IH. intros a' Hin. apply H. right. exact Hin.
Qed.

Lemma weight_non_negative (dims : list Scalar) (scalar : Scalar) :
  forallb non_negative_float (weights dims) = true ->
  In scalar dims -> is_fraction scalar = true -> (0 <= weight scalar)%Q.
Proof.
  intros Hw Hin Hfr. unfold weight.
  destruct (from_float (value scalar)) as [q|e] eqn:E; cbn [get];
    [|apply Qle_refl].
  eapply from_float_non_negative; [|exact E].
  rewrite forallb_forall in Hw. apply Hw.
  unfold weights. apply in_map, filter_In. split; assumption.
Qed.

(** X19. With flex weights that are not negative, a larger total never
    moves a track to the left: entry by entry, the offset and the end of
    the track for the larger total are at or after those for the smaller
    one. *)
Theorem resolve_monotone_in_total (dimensions : list Scalar)
        (total total' gutter : Z) (size viewport : Size)
        (results results' : list (Z * Z)) :
  forallb non_negative_float (weights dimensions) = true ->
  total <= total' ->
  resolve dimensions total gutter size viewport = Ok results ->
  resolve dimensions total' gutter size viewport = Ok results' ->
  Forall2 (fun entry entry' =>
             fst entry <= fst entry'
             /\ fst entry + snd entry <= fst entry' + snd entry')
          results results'.
Proof.
  intros Hw Hle H H'. apply resolve_inv in H, H'.
  destruct H as [tf [_ [Htf [_ ->]]]].
  destruct H' as [tf' [_ [Htf' [_ ->]]]].
  assert (tf' = tf) by congruence. subst tf'.
  assert (Hpos : (0 <= tf)%Q).
  { eapply sum_non_negative; [|exact Htf].
    apply Forall_forall. rewrite forallb_forall in Hw. exact Hw. }
  apply layout_monotone; [|apply Qle_refl].
  assert (Hrem : (remaining dimensions total gutter size viewport
                  <= remaining dimensions total' gutter size viewport)%Q).
  { unfold remaining. apply max_fraction_monotone.
    unfold Z.sub. rewrite !inject_Z_plus.
    assert (inject_Z total <= inject_Z total')%Q
      by (rewrite <- Zle_Qle; exact Hle).
    lra. }
  apply Forall2_map_both_in. intros scalar Hin.
  unfold exact_size. destruct (is_fraction scalar) eqn:Efr;
    [|apply Qle_refl].
  assert (Hwt : (0 <= weight scalar)%Q)
    by (eapply weight_non_negative; eassumption).
  assert (Hinv : (0 <= / tf)%Q) by (apply Qinv_le_0_compat, Hpos).
  unfold Qdiv.
  assert (Hprod :
            (0 <= weight scalar
                  * (remaining dimensions total' gutter size viewport
                     - remaining dimensions total gutter size viewport)
                  * / tf)%Q).
  { apply Qmult_le_0_compat; [|exact Hinv].
    apply Qmult_le_0_compat; [exact Hwt|lra]. }
  lra.
Qed.

Lemma resolve_monotone_in_total_witness :
  Forall2 (fun entry entry' =>
             fst entry <= fst entry'
             /\ fst entry + snd entry <= fst entry' + snd entry')
          [(0, 9); (10, 10)] [(0, 12); (13, 12)].
Proof.
  apply (resolve_monotone_in_total [Flex f1; Flex f1] 20 25 1
                                   size_40_20 size_40_20).
  - reflexivity.
  - lia.
  - vm_compute. reflexivity.
  - vm_compute. reflexivity.
Defined.

(** ** Offsets as floors of partial sums *)

Lemma layout_nth (gutter : Z) (fs : list Q) :
  forall running i o l,
    nth_error (layout gutter running fs) i = Some (o, l) ->
    o = Qfloor (running + fold_right Qplus 0%Q (firstn i fs)
                + inject_Z (Z.of_nat i * gutter))
    /\ o + l = Qfloor (running + fold_right Qplus 0%Q (firstn (S i) fs)
                       + inject_Z (Z.of_nat i * gutter)).
Proof.
  induction fs as [|f fs IH]; intros running i o l H.
  - destruct i; discriminate.
  - destruct i as [|i].
    + cbn [layout nth_error] in H.
      assert (Ho : o = Qfloor running) by congruence.
      assert (Hl : l = Qfloor (running + f) - Qfloor running) by congruence.
      cbn [firstn fold_right Z.of_nat]. rewrite Z.mul_0_l.
      change (inject_Z 0) with 0%Q. split.
      * rewrite Ho. apply Qfloor_comp. ring.
      * rewrite Ho, Hl.
        replace (Qfloor running + (Qfloor (running + f) - Qfloor running))
          with (Qfloor (running + f)) by lia.
        apply Qfloor_comp. ring.
    + cbn [layout nth_error] in H. apply IH in H. destruct H as [Ho Hl].
      assert (Ei : (inject_Z (Z.of_nat (S i) * gutter)
                    == inject_Z gutter + inject_Z (Z.of_nat i * gutter))%Q).
      { rewrite Nat2Z.inj_succ, <- inject_Z_plus.
        apply inject_Z_injective. lia. }
      split.
      * rewrite Ho. apply Qfloor_comp.
        cbn [firstn fold_right]. rewrite Ei. ring.
      * rewrite Hl. apply Qfloor_comp.
        change (firstn (S (S i)) (f :: fs)) with (f :: firstn (S i) fs).
        cbn [fold_right]. rewrite Ei. ring.
Qed.

(** X21. The floor-accumulate rule in closed form: the offset of the track
    at position [i] is the floor of the exact sizes of the tracks before it
    plus [i] gutters, and the track ends at the floor of that sum plus its
    own exact size. *)
Theorem resolve_offsets_closed_form
        (dimensions : list Scalar) (total gutter : Z) (size viewport : Size)
        (fs : list Q) (results : list (Z * Z)) (i : nat) (o l : Z) :
  resolve_fractions dimensions total gutter size viewport
  = Ok (map Some fs) ->
  resolve dimensions total gutter size viewport = Ok results ->
  nth_error results i = Some (o, l) ->
  o = Qfloor (fold_right Qplus 0%Q (firstn i fs)
              + inject_Z (Z.of_nat i * gutter))
  /\ o + l = Qfloor (fold_right Qplus 0%Q (firstn (S i) fs)
                     + inject_Z (Z.of_nat i * gutter)).
Proof.
  intros Hrf H Hi. unfold resolve in H. rewrite Hrf in H. cbn [bind] in H.
  rewrite results_of_resolved in H.
  assert (Hres : results = layout gutter 0 fs) by congruence.
  subst results. apply layout_nth in Hi. destruct Hi as [Ho Hl].
  split.
  - rewrite Ho. apply Qfloor_comp. ring.
  - rewrite Hl. apply Qfloor_comp. ring.
Qed.

Lemma resolve_offsets_closed_form_witness :
  15 = Qfloor (fold_right Qplus 0%Q [20 # 3; 20 # 3]%Q + inject_Z (2 * 1))
  /\ 15 + 7
     = Qfloor (fold_right Qplus 0%Q [20 # 3; 20 # 3; 20 # 3]%Q
               + inject_Z (2 * 1)).
Proof.
  pose (dimensions := [Flex f1; Flex f1; Flex f1]).
  pose (f := exact_size dimensions 22 1 size_40_20 size_40_20
                        (get 0%Q (from_float (PyFloat.sum
                                                (weights dimensions))))
                        (Flex f1)).
  apply (resolve_offsets_closed_form dimensions 22 1 size_40_20 size_40_20
                                     [f; f; f] [(0, 6); (7, 7); (15, 7)]
                                     2 15 7).
  - vm_compute. reflexivity.
  - vm_compute. reflexivity.
  - reflexivity.
Defined.

(** ** Witnesses of the general lemmas above *)

Lemma resolve_length_witness :
  length [(0, 3); (4, 14); (19, 1)]
  = length [Cells f3; Flex f1; Cells f1].
Proof.
  apply (resolve_length [Cells f3; Flex f1; Cells f1] 20 1
                        size_40_20 size_40_20).
  vm_compute. reflexivity.
Defined.

(** ** Appending tracks *)

Lemma layout_app (gutter : Z) (fs fs' : list Q) :
  forall running,
    firstn (length fs) (layout gutter running (fs ++ fs'))
    = layout gutter running fs.
Proof.
  induction fs as [|f fs IH]; intros running; [reflexivity|].
  cbn [app layout length firstn]. rewrite IH. reflexivity.
Qed.

Lemma no_fraction_app (dims extra : list Scalar) :
  no_fraction (dims ++ extra) -> no_fraction dims.
Proof.
  unfold no_fraction. rewrite Forall_app. intros [H _]. exact H.
Qed.

(** X22. With no flex track, the tracks appended at the end of a list do
    not change the tracks before them: the result for the shorter list is
    the beginning of the result for the longer one. *)
Theorem resolve_prefix_without_flex (dimensions extra : list Scalar)
        (total total' gutter : Z) (size viewport : Size)
        (results : list (Z * Z)) :
  forallb (fun scalar => negb (is_fraction scalar)) (dimensions ++ extra)
  = true ->
  resolve (dimensions ++ extra) total gutter size viewport = Ok results ->
  resolve dimensions total' gutter size viewport
  = Ok (firstn (length dimensions) results).
Proof.
  intros Hno H. apply no_fraction_forallb in Hno.
  apply resolve_inv in H. destruct H as [tf [Hres [_ [_ ->]]]].
  apply Forall_app in Hres. destruct Hres as [Hres _].
  pose proof (no_fraction_app _ _ Hno) as Hno'.
  assert (Htf : from_float (PyFloat.sum (weights dimensions)) = Ok 0%Q)
    by (rewrite (no_fraction_weights _ Hno'); reflexivity).
  rewrite (resolve_ok _ _ _ _ _ 0%Q Hres Htf (or_intror Hno')). f_equal.
  rewrite <- (exact_no_fraction dimensions total' gutter size viewport
                                0%Q dimensions Hno').
  rewrite <- (exact_no_fraction (dimensions ++ extra) total gutter size
                                viewport tf (dimensions ++ extra) Hno).
  rewrite map_app.
  rewrite <- (layout_app gutter (map (concrete_size size viewport) dimensions)
                         (map (concrete_size size viewport) extra)).
  rewrite length_map. reflexivity.
Qed.

Lemma resolve_prefix_without_flex_witness :
  resolve [Cells f3; Cells f2_5] 7 1 size_40_20 size_40_20
  = Ok (firstn (length [Cells f3; Cells f2_5]) [(0, 3); (4, 2); (7, 25)]).
Proof.
  apply (resolve_prefix_without_flex [Cells f3; Cells f2_5] [Cells f25]
                                     20 7 1 size_40_20 size_40_20).
  - reflexivity.
  - vm_compute. reflexivity.
Defined.
